(** * OpenStream audio feature extraction: key detection, mood rules,
      per-file analysis and batch orchestration

    Shallow embedding of [server/scripts/analyze_audio.py] and
    [server/scripts/analyze_batch.py].

    Numbers.  The scripts compute with IEEE doubles.  They are embedded as
    exact rationals extended with the three special values a double can
    take ([nan], [+inf], [-inf]); rounding error of the double arithmetic
    is not part of the model, while the order-related behaviour of [nan]
    (every comparison with it is false) is.

    Exceptions.  A Python call either returns a value or raises; this is
    the error monad [M] below.  The type [exn] stands for instances of
    Python's [Exception] class, the class named by the scripts' handlers. *)

From Stdlib Require Import QArith Qcanon Qround Lqa.
From stdpp Require Import base numbers list strings gmap fin_maps.

Local Open Scope string_scope.
Local Open Scope Qc_scope.

#[local] Set Warnings "-clear-no-such-hyp".

(** ** Floating-point values *)

Module Float.

Inductive fnum : Type :=
  | NaN
  | NInf
  | Fin (q : Qc)
  | PInf.

(** A decimal literal [n / d], e.g. [0.15] is [dec 15 100]. *)
Definition dec (n : Z) (d : positive) : Qc := Q2Qc (n # d).

Definition of_Z (n : Z) : fnum := Fin (Qc_of_Z n).

(** Python's [a > b] and [a < b] on floats: false as soon as one side is
    [nan]. *)
Definition gt (a b : fnum) : bool :=
  match a, b with
  | NaN, _ | _, NaN => false
  | PInf, PInf => false
  | PInf, _ => true
  | _, PInf => false
  | NInf, _ => false
  | Fin _, NInf => true
  | Fin x, Fin y => bool_decide (y < x)
  end.

Definition lt (a b : fnum) : bool := gt b a.

(** Addition of doubles: [inf + -inf] is [nan]. *)
Definition add (a b : fnum) : fnum :=
  match a, b with
  | NaN, _ | _, NaN => NaN
  | PInf, NInf | NInf, PInf => NaN
  | PInf, _ | _, PInf => PInf
  | NInf, _ | _, NInf => NInf
  | Fin x, Fin y => Fin (x + y)
  end.

(** Division by a positive finite constant ([/ 0.15], [/ 5000], or the
    element count of a mean). *)
Definition div_pos (a : fnum) (d : Qc) : fnum :=
  match a with
  | Fin x => Fin (x / d)
  | other => other
  end.

(** [min(a, b)] and [max(a, b)] of Python: the first argument is kept
    unless the second compares strictly smaller (resp. greater). *)
Definition py_min (a b : fnum) : fnum := if lt b a then b else a.
Definition py_max (a b : fnum) : fnum := if gt b a then b else a.

(** Nearest integer, ties to the even one. *)
Definition round_half_even (q : Q) : Z :=
  let f := Qfloor q in
  match Qcompare (q - inject_Z f) (1 # 2) with
  | Lt => f
  | Gt => (f + 1)%Z
  | Eq => if Z.even f then f else (f + 1)%Z
  end.

(** [round(x, ndigits)] on a float: the nearest multiple of
    [10^-ndigits]; [nan] and the infinities are returned unchanged. *)
Definition py_round (x : fnum) (ndigits : nat) : fnum :=
  match x with
  | Fin q =>
      let scale := Z.pow 10 (Z.of_nat ndigits) in
      Fin (Q2Qc (inject_Z (round_half_even (this q * inject_Z scale))
                 / inject_Z scale))
  | other => other
  end.

(** [np.mean] of a one-dimensional array; the mean of an empty array is
    [nan] (0/0, the warning being silenced by the scripts). *)
Definition np_sum (l : list fnum) : fnum := foldl add (of_Z 0) l.

Definition np_mean (l : list fnum) : fnum :=
  match l with
  | [] => NaN
  | _ => div_pos (np_sum l) (Qc_of_Z (Z.of_nat (length l)))
  end.

End Float.

Import Float.

#[global] Instance fnum_eq_dec : EqDecision fnum.
Proof. solve_decision. Defined.

(** ** Exceptions *)

(** An instance of Python's [Exception]: its class name and [str(e)]. *)
Record exn : Type := Exc { exn_class : string; str : string }.

Inductive M (A : Type) : Type :=
  | Ok (a : A)
  | Raise (e : exn).
Arguments Ok {A} a.
Arguments Raise {A} e.

#[global] Instance M_ret : MRet M := λ A a, Ok a.
#[global] Instance M_bind : MBind M := λ A B f m,
  match m with
  | Ok a => f a
  | Raise e => Raise e
  end.
#[global] Instance M_throw : MThrow exn M := λ A e, Raise e.

(** [try: body  except Exception as e: handler(e)]. *)
Definition try_except {A} (body : M A) (handler : exn → M A) : M A :=
  match body with
  | Ok a => Ok a
  | Raise e => handler e
  end.

(** Left-to-right loop with an accumulator, the body of which may raise. *)
Fixpoint foldM {A B} (f : A → B → M A) (a : A) (l : list B) : M A :=
  match l with
  | [] => mret a
  | x :: l' => a' ← f a x; foldM f a' l'
  end.

(** [a[0]] on a sequence. *)
Definition index0 {A} (a : list A) : M A :=
  match a with
  | x :: _ => mret x
  | [] => mthrow (Exc "IndexError"
                      "index 0 is out of bounds for axis 0 with size 0")
  end.

(** ** Correlation coefficients

    A Pearson coefficient is [cov / sqrt (var_x * var_y)], in general an
    irrational number.  The only thing [detect_key] does with such values is
    to compare them with [>].  As [r ↦ r * |r|] is strictly increasing on
    the reals, a value [r] is stored as its signed square [r * |r|], which
    is rational, and compared through it: comparisons come out exactly as
    on the reals. *)

Module Corr.

Definition signed_square (q : Qc) : Qc :=
  if decide (0 ≤ q) then q * q else - (q * q).

Inductive t : Type :=
  | NaN
  | Sq (s : Qc).      (* the real [r] with [r * |r| = s] *)

(** The rational [q] as a correlation-valued number. *)
Definition of_Qc (q : Qc) : t := Sq (signed_square q).

Definition gt (a b : t) : bool :=
  match a, b with
  | Sq x, Sq y => bool_decide (y < x)
  | _, _ => false
  end.

(** [np.clip(c, -1, 1)]; [-1] and [1] are their own signed squares. *)
Definition clip (a : t) : t :=
  match a with
  | NaN => NaN
  | Sq s => Sq (if decide (s < -1) then -1 else if decide (1 < s) then 1 else s)
  end.

End Corr.

#[global] Instance corr_eq_dec : EqDecision Corr.t.
Proof. solve_decision. Defined.

(** ** numpy on rational vectors *)

Definition vsum (l : list Qc) : Qc := foldr Qcplus 0 l.

Definition vmean (l : list Qc) : Qc := vsum l / Qc_of_Z (Z.of_nat (length l)).

Definition deviations (l : list Qc) : list Qc :=
  let m := vmean l in (λ x, x - m) <$> l.

Definition dot (a b : list Qc) : Qc := vsum (zip_with Qcmult a b).

(** An entry of [np.cov] ([ddof = 1]) for two rows of equal length. *)
Definition cov (x y : list Qc) : Qc :=
  dot (deviations x) (deviations y) / Qc_of_Z (Z.of_nat (length x) - 1).

Definition finite (x : fnum) : option Qc :=
  match x with Fin q => Some q | _ => None end.

(** [np.corrcoef(x, y)[0, 1]] for one-dimensional [x] and [y].

    [np.corrcoef] stacks the two rows (a [ValueError] when their lengths
    differ), takes the covariance matrix [c], divides [c[0,1]] by the two
    standard deviations [sqrt c[0,0]] and [sqrt c[1,1]] and clips the
    quotient to [[-1, 1]].  A non-finite entry, or fewer than two columns,
    makes every entry of [c] [nan]; [0 / 0] is [nan] and a non-zero number
    divided by zero is an infinity, which the clip sends to [1] or [-1]. *)
Definition corrcoef01 (x y : list fnum) : M Corr.t :=
  if decide (length x = length y) then
    match mapM finite x, mapM finite y with
    | Some xs, Some ys =>
        if decide (length xs ≤ 1)%nat then mret Corr.NaN
        else
          let c01 := cov xs ys in
          let c00 := cov xs xs in
          let c11 := cov ys ys in
          if decide (c00 * c11 = 0) then
            if decide (c01 = 0) then mret Corr.NaN
            else if decide (0 < c01) then mret (Corr.of_Qc 1)
            else mret (Corr.of_Qc (-1))
          else mret (Corr.clip (Corr.Sq (Corr.signed_square c01 / (c00 * c11))))
    | _, _ => mret Corr.NaN
    end
  else
    mthrow (Exc "ValueError"
      "all the input array dimensions except for the concatenation axis must match exactly").

(** ** PitchProfile model *)

Definition MAJOR_PROFILE : list Qc :=
  [dec 635 100; dec 223 100; dec 348 100; dec 233 100; dec 438 100; dec 409 100;
   dec 252 100; dec 519 100; dec 239 100; dec 366 100; dec 229 100; dec 288 100].

Definition MINOR_PROFILE : list Qc :=
  [dec 633 100; dec 268 100; dec 352 100; dec 538 100; dec 260 100; dec 353 100;
   dec 254 100; dec 475 100; dec 398 100; dec 269 100; dec 334 100; dec 317 100].

Definition KEY_NAMES : list string :=
  ["C"; "C#"; "D"; "D#"; "E"; "F"; "F#"; "G"; "G#"; "A"; "A#"; "B"].

(** [np.roll(a, shift)] for a non-negative shift: element [j] moves to
    position [(j + shift) mod n]. *)
Definition np_roll {A} (a : list A) (shift : nat) : list A :=
  let n := length a in
  let k := (n - shift `mod` n)%nat in
  drop k a ++ take k a.

(** ** KeyDetector *)

(** A chroma matrix: the list of its rows (pitch classes), each row the
    list of its frames. *)
Definition chroma_matrix : Type := list (list fnum).

(** [np.mean(chroma, axis=1)]. *)
Definition mean_axis1 (chroma : chroma_matrix) : list fnum := np_mean <$> chroma.

(** One iteration of the loop of [detect_key], on the state
    [(best_corr, best_key)]. *)
Definition detect_key_step (chroma_mean : list fnum)
    (st : Corr.t * string) (i : nat) : M (Corr.t * string) :=
  let '(best_corr, best_key) := st in
  let major_rotated := np_roll MAJOR_PROFILE i in
  let minor_rotated := np_roll MINOR_PROFILE i in
  major_corr ← corrcoef01 chroma_mean (Fin <$> major_rotated);
  minor_corr ← corrcoef01 chroma_mean (Fin <$> minor_rotated);
  let '(best_corr, best_key) :=
    if Corr.gt major_corr best_corr
    then (major_corr, (KEY_NAMES !!! i) +:+ " major")
    else (best_corr, best_key) in
  let '(best_corr, best_key) :=
    if Corr.gt minor_corr best_corr
    then (minor_corr, (KEY_NAMES !!! i) +:+ " minor")
    else (best_corr, best_key) in
  mret (best_corr, best_key).

Definition detect_key (chroma : chroma_matrix) : M string :=
  let chroma_mean := mean_axis1 chroma in
  st ← foldM (detect_key_step chroma_mean)
             (Corr.of_Qc (Qc_of_Z (-2)), "C major") (seq 0 12);
  mret st.2.

(** ** The audio analysis library

    The primitives of [librosa] the scripts call.  Each may raise.  [load]
    is the call with the keyword arguments the scripts fix ([sr=22050],
    [mono=True], [duration=180]) and returns the samples and the sample
    rate. *)

Inductive tempo_value : Type :=
  | TempoScalar (t : fnum)         (* an [int], [float] or [np.floating] *)
  | TempoArray (a : list fnum).    (* anything else: indexed with [[0]] *)

Record Librosa : Type := {
  load : string → M (list fnum * Z);
  beat_track : list fnum → Z → M (tempo_value * list Z);
  chroma_cqt : list fnum → Z → M chroma_matrix;
  rms : list fnum → M (list (list fnum));
  onset_strength : list fnum → Z → M (list fnum);
  plp : list fnum → Z → M (list fnum);
  spectral_centroid : list fnum → Z → M (list (list fnum));
}.

(** ** AnalysisResult *)

Record features : Type := {
  bpm : fnum;
  key : string;
  energy : fnum;
  danceability : fnum;
  valence : fnum;
  mood : string;
}.

(** The dictionary returned by the per-file analysis: the six fields with
    ["success": True], or ["error"] with ["success": False]. *)
Inductive AnalysisResult : Type :=
  | Success (f : features)
  | Failure (error : string).

(** ** JSON values and [json.dumps] of a result *)

#[local] Unset Elimination Schemes.
Inductive json : Type :=
  | JBool (b : bool)
  | JNum (x : fnum)
  | JStr (s : string)
  | JObj (members : list (string * json)).
#[local] Set Elimination Schemes.

Definition result_json (r : AnalysisResult) : json :=
  match r with
  | Success f =>
      JObj [("bpm", JNum (bpm f)); ("key", JStr (key f));
            ("energy", JNum (energy f));
            ("danceability", JNum (danceability f));
            ("valence", JNum (valence f)); ("mood", JStr (mood f));
            ("success", JBool true)]
  | Failure error => JObj [("error", JStr error); ("success", JBool false)]
  end.

(** ** Python dictionaries with string keys

    Keys in insertion order; assigning to a present key replaces its value
    where it stands. *)

Definition pydict (V : Type) : Type := list (string * V).

Fixpoint dict_set {V} (k : string) (v : V) (d : pydict V) : pydict V :=
  match d with
  | [] => [(k, v)]
  | (k', v') :: d' =>
      if decide (k = k') then (k, v) :: d' else (k', v') :: dict_set k v d'
  end.

Definition keys {V} (d : pydict V) : list string := d.*1.

(** The dictionary as a finite map: what [==] on dictionaries compares. *)
Definition to_map {V} (d : pydict V) : gmap string V := list_to_map d.

Definition dict_json (d : pydict AnalysisResult) : json :=
  JObj ((λ kv, (kv.1, result_json kv.2)) <$> d).

(** ** MoodClassifier *)

Definition classify_mood (energy valence tempo : fnum) : string :=
  if gt energy (Fin (dec 6 10)) && gt tempo (of_Z 120) then "energetic"
  else if gt energy (Fin (dec 5 10)) && gt valence (Fin (dec 5 10)) then "happy"
  else if lt energy (Fin (dec 4 10)) && lt valence (Fin (dec 4 10)) then "melancholic"
  else if lt energy (Fin (dec 5 10)) && lt tempo (of_Z 100) then "chill"
  else if gt energy (Fin (dec 7 10)) then "intense"
  else "neutral".


(** ** analyze_audio.py *)

Module AnalyzeAudio.

(** The [try] block of [analyze]. *)
Definition analyze_try (L : Librosa) (file_path : string) : M AnalysisResult :=
  '(y, sr) ← load L file_path;
  '(tempo, beat_frames) ← beat_track L y sr;
  bpm ← match tempo with
        | TempoScalar t => mret t
        | TempoArray a => index0 a
        end;
  chroma ← chroma_cqt L y sr;
  key ← detect_key chroma;
  rms2 ← rms L y;
  rms ← index0 rms2;
  let energy := div_pos (np_mean rms) (dec 15 100) in
  let energy := py_min (of_Z 1) (py_max (of_Z 0) energy) in
  onset_env ← onset_strength L y sr;
  pulse ← plp L onset_env sr;
  let danceability := np_mean pulse in
  let danceability := py_min (of_Z 1) (py_max (of_Z 0) danceability) in
  centroid2 ← spectral_centroid L y sr;
  spectral_centroid ← index0 centroid2;
  let valence := div_pos (np_mean spectral_centroid) (Qc_of_Z 5000) in
  let valence := py_min (of_Z 1) (py_max (of_Z 0) valence) in
  let mood := classify_mood energy valence bpm in
  mret (Success {| bpm := py_round bpm 1;
                   key := key;
                   energy := py_round energy 3;
                   danceability := py_round danceability 3;
                   valence := py_round valence 3;
                   mood := mood |}).

Definition analyze (L : Librosa) (file_path : string) : M AnalysisResult :=
  try_except (analyze_try L file_path) (λ e, mret (Failure (str e))).

Definition analyze_batch (L : Librosa) (file_paths : list string)
    : M (pydict AnalysisResult) :=
  foldM (λ results path, r ← analyze L path; mret (dict_set path r results))
        [] file_paths.

(** What the process prints and its exit status. *)
Record output : Type := { stdout : json; status : Z }.

(** The [__main__] block of analyze_audio.py. *)
Definition main (L : Librosa) (argv : list string) : M output :=
  if decide (length argv < 2)%nat then
    mret {| stdout :=
              JObj [("error",
                     JStr "Usage: python3 analyze_audio.py <file_path>")];
            status := 1 |}
  else
    match argv !! 1%nat with
    | Some file_path =>
        result ← analyze L file_path;
        mret {| stdout := result_json result; status := 0 |}
    | None => mthrow (Exc "IndexError" "list index out of range")
    end.

End AnalyzeAudio.

(** ** analyze_batch.py *)

Module AnalyzeBatch.

(** The [try] block of [analyze_single]. *)
Definition analyze_single_try (L : Librosa) (file_path : string)
    : M AnalysisResult :=
  '(y, sr) ← load L file_path;
  '(tempo, _) ← beat_track L y sr;
  bpm ← match tempo with
        | TempoScalar t => mret t
        | TempoArray a => index0 a
        end;
  chroma ← chroma_cqt L y sr;
  key ← detect_key chroma;
  rms2 ← rms L y;
  rms ← index0 rms2;
  let energy := div_pos (np_mean rms) (dec 15 100) in
  let energy := py_min (of_Z 1) (py_max (of_Z 0) energy) in
  onset_env ← onset_strength L y sr;
  pulse ← plp L onset_env sr;
  let danceability := np_mean pulse in
  let danceability := py_min (of_Z 1) (py_max (of_Z 0) danceability) in
  centroid2 ← spectral_centroid L y sr;
  spectral_centroid ← index0 centroid2;
  let valence := div_pos (np_mean spectral_centroid) (Qc_of_Z 5000) in
  let valence := py_min (of_Z 1) (py_max (of_Z 0) valence) in
  let mood := classify_mood energy valence bpm in
  mret (Success {| bpm := py_round bpm 1;
                   key := key;
                   energy := py_round energy 3;
                   danceability := py_round danceability 3;
                   valence := py_round valence 3;
                   mood := mood |}).

Definition analyze_single (L : Librosa) (file_path : string)
    : M AnalysisResult :=
  try_except (analyze_single_try L file_path) (λ e, mret (Failure (str e))).

(** One run of the process pool, as far as the script can observe it.
    A future is named by its submission index. *)
Record PoolRun : Type := {
  (** [multiprocessing.cpu_count()] *)
  cpu_count : positive;
  (** the order in which [as_completed] yields the futures *)
  completion : list nat;
  (** [Some e] when [result()] of that future raises [e] for a reason of
      the pool itself (a worker that died, a result that cannot be sent
      back) rather than returning what the worker computed *)
  crash : nat → option exn;
}.

(** [ProcessPoolExecutor(max_workers=n)] rejects [n <= 0]. *)
Definition ProcessPoolExecutor (max_workers : Z) : M () :=
  if decide (max_workers ≤ 0)%Z
  then mthrow (Exc "ValueError" "max_workers must be greater than 0")
  else mret ().

(** [future.result()] for the future of [executor.submit(analyze_single, path)]. *)
Definition future_result (run : PoolRun) (L : Librosa) (future : nat)
    (path : string) : M AnalysisResult :=
  match crash run future with
  | Some e => mthrow e
  | None => analyze_single L path
  end.

Definition analyze_batch (run : PoolRun) (L : Librosa)
    (file_paths : list string) (workers : option Z)
    : M (pydict AnalysisResult) :=
  let workers :=
    match workers with
    | None => Z.min (Z.pos (cpu_count run)) 4
    | Some w => w
    end in
  let results := [] in
  _ ← ProcessPoolExecutor workers;
  (* futures = {submit(analyze_single, path): path for path in file_paths}:
     the future with index [i] maps to the [i]-th path *)
  let futures := file_paths in
  foldM (λ results future,
           path ← match futures !! future with
                  | Some path => mret path
                  | None => mthrow (Exc "KeyError" "")
                  end;
           r ← try_except (future_result run L future path)
                          (λ e, mret (Failure (str e)));
           mret (dict_set path r results))
        results (completion run).

(** The parsed standard input of [--stdin] mode, seen through
    [input_data.get("files", [])] and [input_data.get("workers", None)]. *)
Record stdin_json : Type := {
  files : option (list string);
  workers : option Z;
}.

(** What the process prints and its exit status. *)
Record output : Type := { stdout : json; status : Z }.

Definition main (run : PoolRun) (L : Librosa) (argv : list string)
    (input_data : stdin_json) : M output :=
  let '(file_paths, workers) :=
    if bool_decide ("--stdin" ∈ argv)
    then (default [] (files input_data), workers input_data)
    else (filter (λ arg, ¬ String.prefix "--" arg) (tail argv), None) in
  match file_paths with
  | [] => mret {| stdout := JObj [("error", JStr "No files provided")];
                  status := 1 |}
  | [file_path] =>
      (* Single file - just analyze directly *)
      result ← analyze_single L file_path;
      mret {| stdout := result_json result; status := 0 |}
  | _ =>
      (* Multiple files - batch process *)
      results ← analyze_batch run L file_paths workers;
      mret {| stdout := dict_json results; status := 0 |}
  end.

End AnalyzeBatch.

(** ** Sample data *)

Definition col (p : list Qc) : chroma_matrix := (λ q, [Fin q]) <$> p.

(** A library under which ["bad.flac"] cannot be decoded and every other
    file yields a short tone in A minor. *)
Definition sample_lib : Librosa := {|
  load path :=
    if decide (path = "bad.flac")
    then mthrow (Exc "NoBackendError" "unsupported format")
    else mret ([Fin (dec 1 10); Fin (dec (-1) 10)], 22050%Z);
  beat_track y sr := mret (TempoArray [Fin (dec 1234567 10000)], [3%Z; 25%Z]);
  chroma_cqt y sr := mret (col (np_roll MINOR_PROFILE 9));
  rms y := mret [[Fin (dec 1 10); Fin (dec 3 10)]];
  onset_strength y sr := mret [of_Z 0; of_Z 2];
  plp env sr := mret [Fin (dec 7 10); Fin (dec 9 10)];
  spectral_centroid y sr := mret [[of_Z 1800; of_Z 2200]];
|}.

(** One frame whose chroma vector is the sum of the C major and the
    G major profiles: both keys fit it equally well. *)
Definition tie_chroma : chroma_matrix :=
  col (zip_with Qcplus (np_roll MAJOR_PROFILE 0) (np_roll MAJOR_PROFILE 7)).

(** Two equal frames carrying the E major profile. *)
Definition e_major_chroma : chroma_matrix :=
  (λ q, [Fin q; Fin q]) <$> np_roll MAJOR_PROFILE 4.

(** Two frames of the same energy in every pitch class. *)
Definition flat_chroma : chroma_matrix :=
  replicate 12 [Fin (dec 1 2); Fin (dec 1 2)].

Definition sample_run : AnalyzeBatch.PoolRun := {|
  AnalyzeBatch.cpu_count := 8;
  AnalyzeBatch.completion := [2; 0; 1]%nat;
  AnalyzeBatch.crash := λ _, None;
|}.


(** ** Vocabulary of the statements *)

(** A float that is a number of the closed interval [[0, 1]]. *)
Definition unit_interval (x : fnum) : Prop :=
  ∃ q : Qc, x = Fin q ∧ 0 ≤ q ≤ 1.

(** The rule table of the mood classifier as the specification prints it:
    condition and label, in order. *)
Definition mood_rules : list ((fnum * fnum * fnum → bool) * string) :=
  [ (λ '(energy, valence, tempo),
       gt energy (Fin (dec 6 10)) && gt tempo (of_Z 120), "energetic");
    (λ '(energy, valence, tempo),
       gt energy (Fin (dec 5 10)) && gt valence (Fin (dec 5 10)), "happy");
    (λ '(energy, valence, tempo),
       lt energy (Fin (dec 4 10)) && lt valence (Fin (dec 4 10)), "melancholic");
    (λ '(energy, valence, tempo),
       lt energy (Fin (dec 5 10)) && lt tempo (of_Z 100), "chill");
    (λ '(energy, valence, tempo), gt energy (Fin (dec 7 10)), "intense") ].

(** First-match evaluation of a rule table. *)
Fixpoint first_match {A} (rules : list ((A → bool) * string)) (fallback : string)
    (x : A) : string :=
  match rules with
  | [] => fallback
  | (cond, label) :: rest => if cond x then label else first_match rest fallback x
  end.

(** [min(1.0, max(0.0, x))]. *)
Definition clamp01 (x : fnum) : fnum := py_min (of_Z 1) (py_max (of_Z 0) x).

(** The value [analyze] hands back: what its [try] block returns, or the
    failure record built by its handler. *)
Definition analysis (L : Librosa) (file_path : string) : AnalysisResult :=
  match AnalyzeAudio.analyze_try L file_path with
  | Ok r => r
  | Raise e => Failure (str e)
  end.

(** The 24 key candidates: a rotation offset and a mode. *)
Inductive mode : Type := Major | Minor.

#[global] Instance mode_eq_dec : EqDecision mode.
Proof. solve_decision. Defined.

Definition candidate : Type := nat * mode.

(** The order in which [detect_key] looks at them: offsets ascending, at
    each offset the major candidate and then the minor one. *)
Definition candidates : list candidate :=
  i ← seq 0 12; [(i, Major); (i, Minor)].

Definition profile (m : mode) : list Qc :=
  match m with Major => MAJOR_PROFILE | Minor => MINOR_PROFILE end.

Definition label (c : candidate) : string :=
  (KEY_NAMES !!! c.1) +:+ match c.2 with Major => " major" | Minor => " minor" end.

(** The correlation of a candidate with the averaged chroma vector
    ([nan] also standing for a call of [np.corrcoef] that raises). *)
Definition candidate_corr (chroma_mean : list fnum) (c : candidate) : Corr.t :=
  match corrcoef01 chroma_mean (Fin <$> np_roll (profile c.2) c.1) with
  | Ok r => r
  | Raise _ => Corr.NaN
  end.

(** [c] comes no later than [c'] in the preference order: lower offset,
    major before minor at equal offset. *)
Definition preferred (c c' : candidate) : Prop :=
  (c.1 < c'.1)%nat ∨ (c.1 = c'.1 ∧ (c.2 = Major ∨ c'.2 = Minor)).

#[global] Instance preferred_dec c c' : Decision (preferred c c').
Proof. unfold preferred. apply _. Defined.

(** The initial value of [best_corr]. *)
Definition floor : Corr.t := Corr.of_Qc (Qc_of_Z (-2)).

(** Keeping the best of a sequence of scored labels, a later one
    replacing the current best only when strictly greater. *)
Definition keep_best (st : Corr.t * string) (x : Corr.t * string)
    : Corr.t * string :=
  if Corr.gt x.1 st.1 then x else st.

Definition scan (st : Corr.t * string) (l : list (Corr.t * string))
    : Corr.t * string :=
  foldl keep_best st l.

(** Assigning a sequence of items to a dictionary, in order. *)
Definition dict_update {V} (d : pydict V) (items : list (string * V))
    : pydict V :=
  foldl (λ d kv, dict_set kv.1 kv.2 d) d items.

(** The worker counts the pool accepts: unset, or at least one. *)
Definition pool_accepts (workers : option Z) : Prop :=
  match workers with
  | None => True
  | Some n => (0 < n)%Z
  end.

(** What [analyze_batch] of the pool script records for a future. *)
Definition future_entry (run : AnalyzeBatch.PoolRun) (L : Librosa)
    (future : nat) (path : string) : AnalysisResult :=
  match AnalyzeBatch.crash run future with
  | Some e => Failure (str e)
  | None => analysis L path
  end.

(** The output the batch contract describes: one JSON object mapping each
    identifier to its result. *)
Definition batch_contract_output (L : Librosa) (file_paths : list string)
    : json :=
  JObj ((λ p, (p, result_json (analysis L p))) <$> file_paths).

(** A result map keyed by the distinct members of [file_paths]: no key
    twice, the key set is the set of submitted identifiers, and the number
    of entries is the number of distinct identifiers. *)
Definition keyed_by_distinct {V} (file_paths : list string) (d : pydict V)
    : Prop :=
  NoDup (keys d)
  ∧ dom (to_map d) = (list_to_set file_paths : gset string)
  ∧ length d = length (remove_dups file_paths)
  ∧ (¬ NoDup file_paths → (length d < length file_paths)%nat).

(** [float(tempo)] for a scalar, [float(tempo[0])] otherwise. *)
Definition tempo_bpm (tempo : tempo_value) : M fnum :=
  match tempo with
  | TempoScalar t => mret t
  | TempoArray a => index0 a
  end.

(** The library calls of one successful analysis of [file_path], with
    what they returned. *)
Record analysis_run (L : Librosa) (file_path : string) : Type := {
  run_y : list fnum;
  run_sr : Z;
  run_tempo : tempo_value;
  run_beats : list Z;
  run_bpm : fnum;
  run_chroma : chroma_matrix;
  run_rms : list fnum;
  run_rms_rest : list (list fnum);
  run_onset : list fnum;
  run_pulse : list fnum;
  run_centroid : list fnum;
  run_centroid_rest : list (list fnum);
  run_load : load L file_path = Ok (run_y, run_sr);
  run_beat_track : beat_track L run_y run_sr = Ok (run_tempo, run_beats);
  run_tempo_bpm : tempo_bpm run_tempo = Ok run_bpm;
  run_chroma_cqt : chroma_cqt L run_y run_sr = Ok run_chroma;
  run_chroma_rows : length run_chroma = 12%nat;
  run_rms_call : rms L run_y = Ok (run_rms :: run_rms_rest);
  run_onset_strength : onset_strength L run_y run_sr = Ok run_onset;
  run_plp : plp L run_onset run_sr = Ok run_pulse;
  run_spectral_centroid :
    spectral_centroid L run_y run_sr = Ok (run_centroid :: run_centroid_rest);
}.
Arguments run_y {L file_path} _.
Arguments run_sr {L file_path} _.
Arguments run_tempo {L file_path} _.
Arguments run_beats {L file_path} _.
Arguments run_bpm {L file_path} _.
Arguments run_chroma {L file_path} _.
Arguments run_rms {L file_path} _.
Arguments run_rms_rest {L file_path} _.
Arguments run_onset {L file_path} _.
Arguments run_pulse {L file_path} _.
Arguments run_centroid {L file_path} _.
Arguments run_centroid_rest {L file_path} _.

(** The run behind the analysis of ["a.flac"] under [sample_lib]. *)
Definition sample_analysis_run : analysis_run sample_lib "a.flac" :=
  Build_analysis_run sample_lib "a.flac"
    [Fin (dec 1 10); Fin (dec (-1) 10)] 22050
    (TempoArray [Fin (dec 1234567 10000)]) [3%Z; 25%Z]
    (Fin (dec 1234567 10000))
    (col (np_roll MINOR_PROFILE 9))
    [Fin (dec 1 10); Fin (dec 3 10)] []
    [of_Z 0; of_Z 2]
    [Fin (dec 7 10); Fin (dec 9 10)]
    [of_Z 1800; of_Z 2200] []
    eq_refl eq_refl eq_refl eq_refl eq_refl eq_refl eq_refl eq_refl eq_refl.

(** A pool run in which the worker of the second future dies. *)
Definition crashed_run : AnalyzeBatch.PoolRun := {|
  AnalyzeBatch.cpu_count := 2;
  AnalyzeBatch.completion := [1; 2; 0]%nat;
  AnalyzeBatch.crash := λ i,
    if decide (i = 1%nat)
    then Some (Exc "BrokenProcessPool"
                   "A process in the process pool was terminated abruptly")
    else None;
|}.

(** A library whose chroma matrices have eleven rows only. *)
Definition short_chroma_lib : Librosa := {|
  load := load sample_lib;
  beat_track := beat_track sample_lib;
  chroma_cqt y sr := mret (replicate 11 [of_Z 1]);
  rms := rms sample_lib;
  onset_strength := onset_strength sample_lib;
  plp := plp sample_lib;
  spectral_centroid := spectral_centroid sample_lib;
|}.

(** A number of [[0, 1]] with at most three decimals. *)
Definition three_decimals (x : fnum) : Prop :=
  ∃ n : Z, (0 ≤ n ≤ 1000)%Z ∧ x = Fin (Q2Qc (inject_Z n / inject_Z 1000)).

(** * Properties *)

(** ** Floats *)

Section float_facts.

Local Open Scope Q_scope.

Lemma round_half_even_bounds (q : Q) (a b : Z) :
  inject_Z a <= q → q <= inject_Z b →
  (a ≤ round_half_even q ≤ b)%Z.
Proof.
  intros Ha Hb. unfold round_half_even.
  assert (Hfa : (a ≤ Qfloor q)%Z).
  { rewrite <- (Qfloor_Z a). by apply Qfloor_resp_le. }
  assert (Hfb : (Qfloor q ≤ b)%Z).
  { rewrite <- (Qfloor_Z b). by apply Qfloor_resp_le. }
  destruct (Qcompare_spec (q - inject_Z (Qfloor q)) (1 # 2)) as [He|Hl|Hg].
  - destruct (decide (Qfloor q = b)) as [Hq|Hq]; [|destruct (Z.even _); lia].
    exfalso. rewrite Hq in He. lra.
  - lia.
  - destruct (decide (Qfloor q = b)) as [Hq|Hq]; [|lia].
    exfalso. rewrite Hq in Hg. lra.
Qed.

End float_facts.

Lemma Qc_le_Q (x y : Qc) : x ≤ y ↔ (this x <= this y)%Q.
Proof. reflexivity. Qed.

Lemma Qc_lt_Q (x y : Qc) : x < y ↔ (this x < this y)%Q.
Proof. reflexivity. Qed.

Lemma Q2Qc_le (a b : Q) : (a <= b)%Q → Q2Qc a ≤ Q2Qc b.
Proof. intros H. unfold Qcle. cbn [this Q2Qc]. by rewrite !Qred_correct. Qed.

Lemma py_round_unit_interval (x : fnum) (ndigits : nat) :
  unit_interval x → unit_interval (py_round x ndigits).
Proof.
  intros (q & -> & Hq0 & Hq1). eexists. split; [reflexivity|].
  set (scale := (10 ^ Z.of_nat ndigits)%Z).
  assert (Hs : (0 < scale)%Z) by (apply Z.pow_pos_nonneg; lia).
  assert (HsQ : (0 < inject_Z scale)%Q).
  { change 0%Q with (inject_Z 0). by rewrite <- Zlt_Qlt. }
  unfold Qcle in Hq0, Hq1. simpl in Hq0, Hq1.
  change (Qred 0) with 0%Q in Hq0. change (Qred 1) with 1%Q in Hq1.
  destruct (round_half_even_bounds (this q * inject_Z scale) 0 scale)
    as [Hr0 Hr1].
  - change (inject_Z 0) with 0%Q. nra.
  - nra.
  - rewrite Zle_Qle in Hr0, Hr1. change (inject_Z 0) with 0%Q in Hr0.
    set (r := inject_Z (round_half_even (this q * inject_Z scale))) in *.
    split; apply Q2Qc_le.
    + apply Qle_shift_div_l; [done|]. lra.
    + apply Qle_shift_div_r; [done|]. lra.
Qed.

Lemma unit_interval_0 : unit_interval (of_Z 0).
Proof. exists (Qc_of_Z 0). split; [done|]. split; by vm_compute. Qed.

Lemma unit_interval_1 : unit_interval (of_Z 1).
Proof. exists (Qc_of_Z 1). split; [done|]. split; by vm_compute. Qed.

(** Clamping with [min(1.0, max(0.0, x))] lands in [[0, 1]] whatever [x]
    is: [nan] and [-inf] go to [0.0], [+inf] goes to [1.0]. *)
Lemma clamp_unit_interval (x : fnum) :
  unit_interval (py_min (of_Z 1) (py_max (of_Z 0) x)).
Proof.
  unfold py_min, py_max, lt.
  destruct x as [| |q|]; simpl;
    try apply unit_interval_0; try apply unit_interval_1.
  case_bool_decide as H0; simpl.
  - case_bool_decide as H1; simpl; [|apply unit_interval_1].
    exists q. split; [done|]. split.
    + apply Qclt_le_weak, H0.
    + apply Qclt_le_weak, H1.
  - apply unit_interval_0.
Qed.

(** ** MoodClassifier *)

(** C6.  [classify_mood] is the first-match evaluation, top to bottom, of
    the five-rule table with its strict comparisons, and answers
    ["neutral"] when no rule applies.  On the four boundary inputs:
    (0.61, 0.0, 121) is ["energetic"]; (0.6, 0.0, 121) is not ["energetic"],
    the threshold being exclusive; (0.3, 0.3, 80) is ["melancholic"];
    (0.45, 0.2, 90) is ["chill"]. *)
Theorem classify_mood_first_match :
  (∀ energy valence tempo,
     classify_mood energy valence tempo
     = first_match mood_rules "neutral" (energy, valence, tempo))
  ∧ classify_mood (Fin (dec 61 100)) (of_Z 0) (of_Z 121) = "energetic"
  ∧ classify_mood (Fin (dec 6 10)) (of_Z 0) (of_Z 121) ≠ "energetic"
  ∧ classify_mood (Fin (dec 3 10)) (Fin (dec 3 10)) (of_Z 80) = "melancholic"
  ∧ classify_mood (Fin (dec 45 100)) (Fin (dec 2 10)) (of_Z 90) = "chill".
Proof.
  split; [|repeat split; by vm_compute].
  intros energy valence tempo. unfold classify_mood, first_match, mood_rules.
  repeat (destruct (_ && _); [reflexivity|]).
  by destruct (gt energy _).
Qed.

(** The table is read in order: a later rule never overrides an earlier
    one that applies. *)
Lemma first_match_app {A} (r1 r2 : list ((A → bool) * string)) fallback x :
  first_match (r1 ++ r2) fallback x
  = first_match r1 (first_match r2 fallback x) x.
Proof.
  induction r1 as [|[cond label] r1 IH]; simpl; [done|].
  by destruct (cond x).
Qed.

(** ** FeatureExtractor *)

(** What a run of the [try] block that reaches its [return] has computed. *)
Lemma analyze_try_inv (L : Librosa) (file_path : string) (r : AnalysisResult) :
  AnalyzeAudio.analyze_try L file_path = Ok r →
  ∃ tempo k e d v,
    r = Success {| bpm := py_round tempo 1;
                   key := k;
                   energy := py_round (clamp01 e) 3;
                   danceability := py_round (clamp01 d) 3;
                   valence := py_round (clamp01 v) 3;
                   mood := classify_mood (clamp01 e) (clamp01 v) tempo |}.
Proof.
  unfold AnalyzeAudio.analyze_try.
  destruct (load L file_path) as [[y sr]|]; simpl; [|done].
  destruct (beat_track L y sr) as [[tempo beat_frames]|]; simpl; [|done].
  destruct (match tempo with TempoScalar t => _ | TempoArray a => _ end)
    as [bpm_|]; simpl; [|done].
  destruct (chroma_cqt L y sr) as [chroma|]; simpl; [|done].
  destruct (detect_key chroma) as [k|]; simpl; [|done].
  destruct (rms L y) as [rms2|]; simpl; [|done].
  destruct (index0 rms2) as [rms_|]; simpl; [|done].
  destruct (onset_strength L y sr) as [onset_env|]; simpl; [|done].
  destruct (plp L onset_env sr) as [pulse|]; simpl; [|done].
  destruct (spectral_centroid L y sr) as [centroid2|]; simpl; [|done].
  destruct (index0 centroid2) as [centroid|]; simpl; [|done].
  intros [= <-]. by eexists _, _, _, _, _.
Qed.

Lemma analyze_eq (L : Librosa) (file_path : string) :
  AnalyzeAudio.analyze L file_path = Ok (analysis L file_path).
Proof.
  unfold AnalyzeAudio.analyze, analysis, try_except.
  by destruct (AnalyzeAudio.analyze_try L file_path).
Qed.

(** The two scripts carry the same per-file analysis. *)
Lemma analyze_single_try_eq (L : Librosa) (file_path : string) :
  AnalyzeBatch.analyze_single_try L file_path
  = AnalyzeAudio.analyze_try L file_path.
Proof. reflexivity. Qed.

Lemma analyze_single_eq (L : Librosa) (file_path : string) :
  AnalyzeBatch.analyze_single L file_path = Ok (analysis L file_path).
Proof. apply analyze_eq. Qed.

(** C2.  For every file identifier and every behaviour of the library,
    [analyze] (and [analyze_single]) returns a result and does not raise:
    when the [try] block returns, the result is its [Success] record with
    the six fields; when any step of the block raises [e], the result is
    [Failure] with [str(e)]. *)
Theorem analyze_never_raises (L : Librosa) (file_path : string) :
  (∃ r, AnalyzeAudio.analyze L file_path = Ok r ∧
     match AnalyzeAudio.analyze_try L file_path with
     | Ok r' => r = r' ∧ ∃ f, r = Success f
     | Raise e => r = Failure (str e)
     end)
  ∧
  (∃ r, AnalyzeBatch.analyze_single L file_path = Ok r ∧
     match AnalyzeBatch.analyze_single_try L file_path with
     | Ok r' => r = r' ∧ ∃ f, r = Success f
     | Raise e => r = Failure (str e)
     end).
Proof.
  assert (∃ r, Ok (analysis L file_path) = Ok r ∧
     match AnalyzeAudio.analyze_try L file_path with
     | Ok r' => r = r' ∧ ∃ f, r = Success f
     | Raise e => r = Failure (str e)
     end) as H.
  { exists (analysis L file_path). split; [done|]. unfold analysis.
    destruct (AnalyzeAudio.analyze_try L file_path) as [r|e] eqn:Htry; [|done].
    split; [done|].
    destruct (analyze_try_inv _ _ _ Htry) as (?&?&?&?&?&->). by eexists. }
  split.
  - by rewrite analyze_eq.
  - rewrite analyze_single_eq.
    by change (AnalyzeBatch.analyze_single_try L file_path)
      with (AnalyzeAudio.analyze_try L file_path).
Qed.

(** C7.  In every [Success] result of [analyze] (and of [analyze_single])
    the energy, danceability and valence fields are numbers of [[0, 1]],
    whatever the library returned for the raw signals. *)
Theorem analyze_fields_in_unit_interval (L : Librosa) (file_path : string)
    (f : features) :
  AnalyzeAudio.analyze L file_path = Ok (Success f)
  ∨ AnalyzeBatch.analyze_single L file_path = Ok (Success f) →
  unit_interval (energy f) ∧ unit_interval (danceability f)
  ∧ unit_interval (valence f).
Proof.
  rewrite analyze_single_eq, analyze_eq. intros H.
  assert (analysis L file_path = Success f) as Hf by (destruct H; congruence).
  clear H. unfold analysis in Hf.
  destruct (AnalyzeAudio.analyze_try L file_path) as [r|e] eqn:Htry; [|done].
  subst r. destruct (analyze_try_inv _ _ _ Htry) as (?&?&?&?&?&[= ->]).
  simpl. repeat split; apply py_round_unit_interval, clamp_unit_interval.
Qed.

Lemma analyze_fields_in_unit_interval_witness :
  ∃ f, AnalyzeAudio.analyze sample_lib "a.flac" = Ok (Success f) ∧
       unit_interval (energy f) ∧ unit_interval (danceability f)
       ∧ unit_interval (valence f).
Proof.
  eexists. split; [by vm_compute|].
  apply (analyze_fields_in_unit_interval sample_lib "a.flac").
  left. by vm_compute.
Defined.

(** ** KeyDetector *)

Lemma foldM_ok {A B} (f : A → B → M A) (g : A → B → A) (l : list B) (a : A) :
  (∀ a x, x ∈ l → f a x = Ok (g a x)) →
  foldM f a l = Ok (foldl g a l).
Proof.
  revert a. induction l as [|x l IH]; intros a Hf; simpl; [done|].
  rewrite Hf by left. simpl. apply IH. intros a' y Hy. apply Hf. by right.
Qed.

Lemma length_np_roll {A} (a : list A) (shift : nat) :
  length (np_roll a shift) = length a.
Proof.
  unfold np_roll. rewrite length_app, length_drop, length_take.
  assert (length a - shift `mod` length a ≤ length a)%nat by lia. lia.
Qed.

Lemma length_profile (m : mode) : length (profile m) = 12%nat.
Proof. by destruct m. Qed.

(** [np.corrcoef] raises only on rows of different lengths. *)
Lemma corrcoef01_ok (x y : list fnum) :
  length x = length y → ∃ r, corrcoef01 x y = Ok r.
Proof.
  intros Hlen. unfold corrcoef01. rewrite decide_True by done.
  destruct (mapM finite x), (mapM finite y); try by eexists.
  repeat case_decide; by eexists.
Qed.

Lemma corrcoef01_raise (x y : list fnum) :
  length x ≠ length y → ∃ e, corrcoef01 x y = Raise e.
Proof.
  intros Hlen. unfold corrcoef01. rewrite decide_False by done. by eexists.
Qed.

Lemma candidate_corr_ok (v : list fnum) (c : candidate) :
  length v = 12%nat →
  corrcoef01 v (Fin <$> np_roll (profile c.2) c.1) = Ok (candidate_corr v c).
Proof.
  intros Hv. unfold candidate_corr.
  destruct (corrcoef01_ok v (Fin <$> np_roll (profile c.2) c.1)) as [r ->];
    [|done].
  by rewrite length_fmap, length_np_roll, length_profile.
Qed.

(** One turn of the loop looks at the major and then at the minor
    candidate of its offset. *)
Lemma detect_key_step_ok (v : list fnum) (st : Corr.t * string) (i : nat) :
  length v = 12%nat →
  detect_key_step v st i
  = Ok (keep_best (keep_best st (candidate_corr v (i, Major), label (i, Major)))
                  (candidate_corr v (i, Minor), label (i, Minor))).
Proof.
  intros Hv. unfold detect_key_step. destruct st as [best_corr best_key].
  pose proof (candidate_corr_ok v (i, Major) Hv) as HM.
  pose proof (candidate_corr_ok v (i, Minor) Hv) as Hm.
  simpl in HM, Hm. rewrite HM. simpl. rewrite Hm. simpl.
  unfold keep_best. simpl.
  destruct (Corr.gt (candidate_corr v (i, Major)) best_corr); simpl;
    by destruct (Corr.gt (candidate_corr v (i, Minor)) _).
Qed.

Lemma scan_candidates (score : candidate → Corr.t * string)
    (st : Corr.t * string) (offsets : list nat) :
  foldl (λ st i, keep_best (keep_best st (score (i, Major))) (score (i, Minor)))
        st offsets
  = scan st (score <$> (i ← offsets; [(i, Major); (i, Minor)])).
Proof.
  revert st. induction offsets as [|i offsets IH]; intros st; [done|].
  simpl. by rewrite IH.
Qed.

(** [detect_key] scans the 24 candidates in the order of [candidates],
    starting from the floor and the default label, and keeps a candidate
    only when it is strictly better than the best so far. *)
Lemma detect_key_scan (chroma : chroma_matrix) :
  length chroma = 12%nat →
  detect_key chroma
  = Ok (scan (floor, "C major")
          ((λ c, (candidate_corr (mean_axis1 chroma) c, label c))
             <$> candidates)).2.
Proof.
  intros Hlen. unfold detect_key.
  assert (length (mean_axis1 chroma) = 12%nat) as Hv
    by (unfold mean_axis1; by rewrite length_fmap).
  rewrite (foldM_ok _ _ _ _ (λ st i _, detect_key_step_ok _ st i Hv)).
  rewrite (scan_candidates
             (λ c, (candidate_corr (mean_axis1 chroma) c, label c))).
  reflexivity.
Qed.

(** A matrix that does not have twelve rows makes [np.corrcoef], and with
    it [detect_key], raise. *)
Lemma detect_key_raise (chroma : chroma_matrix) :
  length chroma ≠ 12%nat → ∃ e, detect_key chroma = Raise e.
Proof.
  intros Hlen. unfold detect_key.
  destruct (corrcoef01_raise (mean_axis1 chroma)
              (Fin <$> np_roll MAJOR_PROFILE 0)) as [e He].
  { unfold mean_axis1. by rewrite !length_fmap. }
  change (seq 0 12) with (0%nat :: seq 1 11). cbn [foldM].
  assert (∀ st, detect_key_step (mean_axis1 chroma) st 0 = Raise e) as ->.
  { intros [best_corr best_key]. unfold detect_key_step. by rewrite He. }
  by eexists.
Qed.

Lemma Corr_gt_trichotomy (a b c : Corr.t) :
  Corr.gt a c = true → Corr.gt b c = true →
  Corr.gt a b = false → a ≠ b → Corr.gt b a = true.
Proof.
  destruct a as [|x], b as [|y], c as [|z]; simpl; try done.
  intros _ _ Hxy Hne. apply bool_decide_eq_false in Hxy.
  apply bool_decide_eq_true. apply Qcnot_lt_le in Hxy.
  destruct (Qcle_lt_or_eq _ _ Hxy) as [?| ->]; [done|by destruct Hne].
Qed.

Lemma scan_stable (l : list (Corr.t * string)) (st : Corr.t * string) :
  (∀ y, y ∈ l → Corr.gt y.1 st.1 = false) → scan st l = st.
Proof.
  unfold scan. induction l as [|y l IH]; intros Hl; simpl; [done|].
  unfold keep_best at 2. rewrite (Hl y) by left.
  apply IH. intros z Hz. apply Hl. by right.
Qed.

(** The scan returns the first of the entries that attain the maximum,
    provided the maximum is a number above the starting value. *)
Lemma scan_first_best (l : list (Corr.t * string)) (st : Corr.t * string)
    (j : nat) (x : Corr.t * string) :
  l !! j = Some x →
  Corr.gt x.1 st.1 = true →
  (∀ y, y ∈ l → Corr.gt y.1 x.1 = false) →
  (∀ j' y, (j' < j)%nat → l !! j' = Some y → y.1 ≠ x.1) →
  scan st l = x.
Proof.
  revert st j. induction l as [|y l IH]; intros st j Hj Hst Hmax Hfirst;
    [done|].
  destruct j as [|j]; simpl in Hj.
  - injection Hj as ->. unfold scan. simpl. unfold keep_best at 2.
    rewrite Hst. apply scan_stable. intros z Hz. apply Hmax. by right.
  - unfold scan. simpl. apply (IH _ j); [done| |..].
    + unfold keep_best. destruct (Corr.gt y.1 st.1) eqn:Hy; [|done].
      apply (Corr_gt_trichotomy _ _ st.1); [done..| |].
      * apply Hmax. by left.
      * apply (Hfirst 0%nat); [lia|done].
    + intros z Hz. apply Hmax. by right.
    + intros j' z Hj' Hz. apply (Hfirst (S j')); [lia|done].
Qed.

(** Where a candidate stands in the scan. *)
Lemma candidates_position (j : nat) (c : candidate) :
  candidates !! j = Some c →
  j = (2 * c.1 + match c.2 with Major => 0 | Minor => 1 end)%nat.
Proof.
  intros Hj. assert (j < 24)%nat as Hlt by apply (lookup_lt_Some _ _ _ Hj).
  do 24 (destruct j as [|j]; [by injection Hj as <-|]). lia.
Qed.

Lemma preferred_position (c c' : candidate) (j j' : nat) :
  candidates !! j = Some c → candidates !! j' = Some c' →
  preferred c c' → (j ≤ j')%nat.
Proof.
  intros Hj%candidates_position Hj'%candidates_position Hp.
  destruct c as [i [|]], c' as [i' [|]]; unfold preferred in Hp; simpl in *;
    destruct Hp as [?|[? [?|?]]]; simplify_eq; lia.
Qed.

(** A correlation that is a number lies in [[-1, 1]], hence above the
    floor [-2]. *)
Lemma above_floor (s : Qc) : -1 ≤ s → Corr.gt (Corr.Sq s) floor = true.
Proof.
  intros Hs. apply bool_decide_eq_true.
  apply Qclt_le_trans with (-1); [by vm_compute|done].
Qed.

Lemma clip_above_floor (s : Qc) :
  Corr.gt (Corr.clip (Corr.Sq s)) floor = true.
Proof.
  unfold Corr.clip. apply above_floor.
  destruct (decide (s < -1)) as [?|Hs]; [by vm_compute|].
  destruct (decide (1 < s)); [by vm_compute|by apply Qcnot_lt_le].
Qed.

Lemma corrcoef01_above_floor (x y : list fnum) (r : Corr.t) :
  corrcoef01 x y = Ok r → r ≠ Corr.NaN → Corr.gt r floor = true.
Proof.
  assert (match corrcoef01 x y with
          | Ok r => r ≠ Corr.NaN → Corr.gt r floor = true
          | Raise _ => True
          end) as Haux; [|intros H; rewrite H in Haux; exact Haux].
  unfold corrcoef01, mret, M_ret, mthrow, M_throw.
  destruct (decide (length x = length y)); [|exact I].
  destruct (mapM finite x) as [xs|], (mapM finite y) as [ys|];
    try (intros Hne; destruct Hne; reflexivity).
  destruct (decide (length xs ≤ 1)%nat);
    [intros Hne; destruct Hne; reflexivity|].
  cbv zeta. destruct (decide (cov xs xs * cov ys ys = 0)).
  - destruct (decide (cov xs ys = 0));
      [intros Hne; destruct Hne; reflexivity|].
    destruct (decide (0 < cov xs ys)); intros _;
      apply above_floor; by vm_compute.
  - intros _. apply clip_above_floor.
Qed.

Lemma candidate_corr_above_floor (v : list fnum) (c : candidate) :
  candidate_corr v c ≠ Corr.NaN → Corr.gt (candidate_corr v c) floor = true.
Proof.
  unfold candidate_corr.
  destruct (corrcoef01 v _) as [r|e] eqn:Hr;
    [|intros Hne; destruct Hne; reflexivity].
  apply (corrcoef01_above_floor _ _ _ Hr).
Qed.


(** A decidable property of the candidates is checked by enumeration. *)
Lemma for_all_candidates (P : candidate → Prop) `{!∀ c, Decision (P c)} :
  bool_decide (Forall P candidates) = true → ∀ c, c ∈ candidates → P c.
Proof. intros Hall%bool_decide_eq_true. by apply Forall_forall. Qed.






(** ** Dictionaries *)

Section dict.

Context {V : Type}.
Implicit Types (d : pydict V) (k : string) (v : V).

Lemma to_map_dict_set k v d : to_map (dict_set k v d) = <[k:=v]> (to_map d).
Proof.
  unfold to_map. induction d as [|[k' v'] d IH]; simpl; [done|].
  case_decide as Hk; simpl.
  - subst k'. by rewrite insert_insert_eq.
  - rewrite IH. by apply insert_insert_ne.
Qed.

Lemma elem_of_keys_dict_set k v d x :
  x ∈ keys (dict_set k v d) ↔ x = k ∨ x ∈ keys d.
Proof.
  unfold keys. induction d as [|[k' v'] d IH]; simpl.
  - rewrite list_elem_of_singleton. set_solver.
  - case_decide as Hk; simpl; set_solver.
Qed.

Lemma NoDup_keys_dict_set k v d :
  NoDup (keys d) → NoDup (keys (dict_set k v d)).
Proof.
  unfold keys. induction d as [|[k' v'] d IH]; simpl; intros Hd.
  - apply NoDup_singleton.
  - apply NoDup_cons in Hd as [Hk' Hd]. case_decide as Hk; simpl.
    + subst k'. by apply NoDup_cons.
    + apply NoDup_cons. split; [|by apply IH].
      intros [?|?]%(elem_of_keys_dict_set k v d k'); by simplify_eq.
Qed.

Lemma to_map_dict_update d (items : list (string * V)) :
  to_map (dict_update d items)
  = foldl (λ m kv, <[kv.1:=kv.2]> m) (to_map d) items.
Proof.
  unfold dict_update. revert d.
  induction items as [|[k v] items IH]; intros d; simpl; [done|].
  by rewrite IH, to_map_dict_set.
Qed.

Lemma elem_of_keys_dict_update d (items : list (string * V)) x :
  x ∈ keys (dict_update d items) ↔ x ∈ keys d ∨ x ∈ items.*1.
Proof.
  unfold dict_update. revert d.
  induction items as [|[k v] items IH]; intros d; simpl.
  - set_solver.
  - rewrite IH, elem_of_keys_dict_set. set_solver.
Qed.

Lemma NoDup_keys_dict_update d (items : list (string * V)) :
  NoDup (keys d) → NoDup (keys (dict_update d items)).
Proof.
  unfold dict_update. revert d.
  induction items as [|[k v] items IH]; intros d Hd; simpl; [done|].
  by apply IH, NoDup_keys_dict_set.
Qed.

(** When every item carries the value [g] assigns to its key, the
    dictionary holds [g k] under each key [k], whatever the order of the
    items and however often a key occurs. *)
Lemma lookup_dict_update (g : string → V) d (items : list (string * V)) k :
  (∀ kv, kv ∈ items → kv.2 = g kv.1) →
  to_map (dict_update d items) !! k
  = if decide (k ∈ items.*1) then Some (g k) else to_map d !! k.
Proof.
  rewrite to_map_dict_update. generalize (to_map d). clear d.
  induction items as [|[k' v'] items IH]; intros m Hg.
  - by rewrite decide_False by apply not_elem_of_nil.
  - cbn [foldl]. rewrite fmap_cons. cbn [fst snd].
    rewrite IH by (intros kv Hkv; apply Hg; by right).
    destruct (decide (k ∈ items.*1)) as [Hin|Hin].
    + rewrite decide_True; [done|by right].
    + destruct (decide (k = k')) as [->|Hne].
      * rewrite decide_True by left. rewrite lookup_insert_eq.
        f_equal. apply (Hg (k', v')). by left.
      * rewrite decide_False by (by intros [?|?]%elem_of_cons).
        by rewrite lookup_insert_ne.
Qed.

Lemma lookup_foldl_insert_notin (m : gmap string V)
    (items : list (string * V)) k :
  k ∉ items.*1 →
  foldl (λ m kv, <[kv.1:=kv.2]> m) m items !! k = m !! k.
Proof.
  revert m. induction items as [|[k' v'] items IH]; intros m Hk; [done|].
  rewrite fmap_cons in Hk. apply not_elem_of_cons in Hk as [Hne Hk].
  cbn [foldl]. rewrite IH by done. by apply lookup_insert_ne.
Qed.

(** The entry of a key written once does not depend on the other items. *)
Lemma lookup_dict_update_once d (items : list (string * V)) i k v :
  items !! i = Some (k, v) →
  (∀ j kv, items !! j = Some kv → kv.1 = k → j = i) →
  to_map (dict_update d items) !! k = Some v.
Proof.
  rewrite to_map_dict_update. generalize (to_map d). clear d. revert i.
  induction items as [|[k' v'] items IH]; intros i m Hi Honce; [done|].
  cbn [foldl]. destruct i as [|i]; simpl in Hi.
  - injection Hi as -> ->. rewrite lookup_foldl_insert_notin.
    + apply lookup_insert_eq.
    + intros ([k2 v2] & Hk & [j Hj]%list_elem_of_lookup)%list_elem_of_fmap.
      pose proof (Honce (S j) (k2, v2) Hj (eq_sym Hk)). lia.
  - apply (IH i); [done|]. intros j kv Hj Hk.
    pose proof (Honce (S j) kv Hj Hk). lia.
Qed.

End dict.

Lemma length_remove_dups_le (l : list string) :
  (length (remove_dups l) ≤ length l)%nat.
Proof.
  induction l as [|x l IH]; simpl; [done|]. case_decide; simpl; lia.
Qed.

Lemma length_remove_dups_lt (l : list string) :
  ¬ NoDup l → (length (remove_dups l) < length l)%nat.
Proof.
  induction l as [|x l IH]; simpl; intros Hl.
  - destruct Hl. constructor.
  - pose proof (length_remove_dups_le l). case_decide as Hx; simpl; [lia|].
    assert (length (remove_dups l) < length l)%nat; [|lia].
    apply IH. intros Hnd. apply Hl. by constructor.
Qed.

(** A dictionary whose distinct keys are the members of [l] has as many
    entries as [l] has distinct members. *)
Lemma keys_remove_dups {V} (d : pydict V) (l : list string) :
  NoDup (keys d) → (∀ k, k ∈ keys d ↔ k ∈ l) → keys d ≡ₚ remove_dups l.
Proof.
  intros Hd Hk. apply NoDup_Permutation; [done|apply NoDup_remove_dups|].
  intros k. by rewrite elem_of_remove_dups.
Qed.

(** ** BatchOrchestrator *)

(** The sequential batch assigns, path after path, the result of the
    per-file analysis. *)
Lemma sequential_batch_eq (L : Librosa) (file_paths : list string) :
  AnalyzeAudio.analyze_batch L file_paths
  = Ok (dict_update [] ((λ p, (p, analysis L p)) <$> file_paths)).
Proof.
  unfold AnalyzeAudio.analyze_batch.
  rewrite (foldM_ok _ (λ d p, dict_set p (analysis L p) d)).
  - unfold dict_update. by rewrite foldl_fmap.
  - intros d p _. by rewrite analyze_eq.
Qed.

(** The pool rejects a worker count that is not positive before any file
    is looked at. *)
Lemma pool_batch_rejected (run : AnalyzeBatch.PoolRun) (L : Librosa)
    (file_paths : list string) (n : Z) :
  (n ≤ 0)%Z →
  AnalyzeBatch.analyze_batch run L file_paths (Some n)
  = Raise (Exc "ValueError" "max_workers must be greater than 0").
Proof.
  intros Hn. unfold AnalyzeBatch.analyze_batch, AnalyzeBatch.ProcessPoolExecutor.
  by rewrite decide_True.
Qed.

(** With an accepted worker count, the pool batch assigns, in completion
    order, to the path of each future what that future delivered. *)
Lemma pool_batch_eq (run : AnalyzeBatch.PoolRun) (L : Librosa)
    (file_paths : list string) (workers : option Z) :
  pool_accepts workers →
  (∀ i, i ∈ AnalyzeBatch.completion run → (i < length file_paths)%nat) →
  AnalyzeBatch.analyze_batch run L file_paths workers
  = Ok (dict_update []
          ((λ i, (file_paths !!! i,
                  future_entry run L i (file_paths !!! i)))
             <$> AnalyzeBatch.completion run)).
Proof.
  intros Hw Hrange.
  unfold AnalyzeBatch.analyze_batch, AnalyzeBatch.ProcessPoolExecutor.
  rewrite decide_False by (destruct workers; simpl in *; lia).
  cbn [mbind M_bind mret M_ret].
  rewrite (foldM_ok _ (λ d i, dict_set (file_paths !!! i)
             (future_entry run L i (file_paths !!! i)) d)).
  - unfold dict_update. by rewrite foldl_fmap.
  - intros d i Hi. rewrite (list_lookup_lookup_total_lt file_paths i)
      by by apply Hrange.
    cbn [mbind M_bind mret M_ret].
    unfold AnalyzeBatch.future_result, future_entry.
    destruct (AnalyzeBatch.crash run i); [done|].
    by rewrite analyze_single_eq.
Qed.

(** Every future completes once: the paths met in completion order are
    the submitted paths, rearranged. *)
Lemma completed_paths (file_paths : list string) (order : list nat) :
  order ≡ₚ seq 0 (length file_paths) →
  (λ i, file_paths !!! i) <$> order ≡ₚ file_paths.
Proof.
  intros ->.
  assert ((λ i, file_paths !!! i) <$> seq 0 (length file_paths) = file_paths)
    as ->; [|done].
  apply list_eq. intros i.
  rewrite list_lookup_fmap.
  destruct (decide (i < length file_paths)%nat) as [Hi|Hi].
  - rewrite lookup_seq_lt by done. simpl.
    by rewrite (list_lookup_lookup_total_lt file_paths i).
  - rewrite lookup_seq_ge by lia. simpl.
    symmetry. apply lookup_ge_None. lia.
Qed.

Section batch.

Context (L : Librosa).

Lemma batch_keys (items : list (string * AnalysisResult))
    (file_paths : list string) :
  items.*1 ≡ₚ file_paths →
  NoDup (keys (dict_update [] items))
  ∧ ∀ k, k ∈ keys (dict_update [] items) ↔ k ∈ file_paths.
Proof.
  intros Hperm. split.
  - apply NoDup_keys_dict_update. constructor.
  - intros k. rewrite elem_of_keys_dict_update, <- Hperm.
    split; [intros [[]%elem_of_nil|]|]; auto.
Qed.

Lemma batch_lookup (items : list (string * AnalysisResult))
    (file_paths : list string) (p : string) :
  items.*1 ≡ₚ file_paths →
  (∀ kv, kv ∈ items → kv.2 = analysis L kv.1) →
  to_map (dict_update [] items) !! p
  = if decide (p ∈ file_paths) then Some (analysis L p) else None.
Proof.
  intros Hperm Hval. rewrite (lookup_dict_update (analysis L)) by done.
  destruct (decide (p ∈ items.*1)) as [Hin|Hin]; rewrite Hperm in Hin.
  - by rewrite decide_True.
  - by rewrite decide_False.
Qed.

Lemma batch_keyed_by_distinct (items : list (string * AnalysisResult))
    (file_paths : list string) :
  items.*1 ≡ₚ file_paths →
  keyed_by_distinct file_paths (dict_update [] items).
Proof.
  intros Hperm. destruct (batch_keys _ _ Hperm) as [Hnd Hk].
  pose proof (keys_remove_dups _ _ Hnd Hk) as Hrd.
  assert (length (dict_update [] items) = length (remove_dups file_paths))
    as Hlen.
  { rewrite <- Hrd. unfold keys. by rewrite length_fmap. }
  repeat split; [done| |done|].
  - unfold to_map. rewrite dom_list_to_map_L. apply set_eq. intros k.
    rewrite !elem_of_list_to_set. apply Hk.
  - intros Hdup. rewrite Hlen. by apply length_remove_dups_lt.
Qed.

Lemma sequential_items (file_paths : list string) :
  ((λ p, (p, analysis L p)) <$> file_paths).*1 = file_paths.
Proof. rewrite <- list_fmap_compose. apply list_fmap_id. Qed.

Lemma pool_items (run : AnalyzeBatch.PoolRun) (file_paths : list string) :
  AnalyzeBatch.completion run ≡ₚ seq 0 (length file_paths) →
  ((λ i, (file_paths !!! i, future_entry run L i (file_paths !!! i)))
     <$> AnalyzeBatch.completion run).*1 ≡ₚ file_paths.
Proof.
  intros Hperm. rewrite <- list_fmap_compose. by apply completed_paths.
Qed.

Lemma completion_range (run : AnalyzeBatch.PoolRun) (file_paths : list string) :
  AnalyzeBatch.completion run ≡ₚ seq 0 (length file_paths) →
  ∀ i, i ∈ AnalyzeBatch.completion run → (i < length file_paths)%nat.
Proof. intros Hperm i. rewrite Hperm, elem_of_seq. lia. Qed.

End batch.

(** C1.  For distinct file identifiers, both batch functions return a map
    with exactly one entry per submitted identifier, the entry of each
    identifier being the result of analyzing it on its own; so a file that
    fails to decode or to analyze leaves the entries of the others as they
    are.  (For the pool: any accepted worker count, any completion order,
    workers that deliver what they computed.) *)
Theorem analyze_batch_complete (run : AnalyzeBatch.PoolRun) (L : Librosa)
    (file_paths : list string) (workers : option Z) :
  NoDup file_paths →
  pool_accepts workers →
  AnalyzeBatch.completion run ≡ₚ seq 0 (length file_paths) →
  (∀ i, AnalyzeBatch.crash run i = None) →
  (∃ d, AnalyzeAudio.analyze_batch L file_paths = Ok d
        ∧ keys d ≡ₚ file_paths
        ∧ ∀ p, p ∈ file_paths →
            ∃ r, AnalyzeAudio.analyze L p = Ok r ∧ to_map d !! p = Some r)
  ∧
  (∃ d, AnalyzeBatch.analyze_batch run L file_paths workers = Ok d
        ∧ keys d ≡ₚ file_paths
        ∧ ∀ p, p ∈ file_paths →
            ∃ r, AnalyzeBatch.analyze_single L p = Ok r
                 ∧ to_map d !! p = Some r).
Proof.
  intros Hnd Hw Hperm Hcrash. split.
  - eexists. split; [apply sequential_batch_eq|].
    pose proof (sequential_items L file_paths) as Hitems.
    destruct (batch_keys ((λ p, (p, analysis L p)) <$> file_paths) file_paths)
      as [Hk1 Hk2]; [by rewrite Hitems|].
    split; [by apply NoDup_Permutation|].
    intros p Hp. exists (analysis L p). split; [apply analyze_eq|].
    rewrite (batch_lookup L _ file_paths); [by rewrite decide_True| |].
    + by rewrite Hitems.
    + by intros kv (q & -> & _)%list_elem_of_fmap.
  - eexists. split;
      [apply pool_batch_eq; [done|by apply completion_range]|].
    pose proof (pool_items L run file_paths Hperm) as Hitems.
    destruct (batch_keys _ file_paths Hitems) as [Hk1 Hk2].
    split; [by apply NoDup_Permutation|].
    intros p Hp. exists (analysis L p). split; [apply analyze_single_eq|].
    rewrite (batch_lookup L _ file_paths); [by rewrite decide_True|done|].
    intros kv (i & -> & _)%list_elem_of_fmap. unfold future_entry.
    by rewrite Hcrash.
Qed.

Lemma analyze_batch_complete_witness :
  ∃ d d',
    AnalyzeAudio.analyze_batch sample_lib ["a.flac"; "bad.flac"; "c.flac"]
    = Ok d
    ∧ AnalyzeBatch.analyze_batch sample_run sample_lib
        ["a.flac"; "bad.flac"; "c.flac"] None = Ok d'
    ∧ keys d ≡ₚ ["a.flac"; "bad.flac"; "c.flac"]
    ∧ keys d' ≡ₚ ["a.flac"; "bad.flac"; "c.flac"]
    ∧ to_map d !! "bad.flac" = Some (Failure "unsupported format")
    ∧ to_map d' !! "bad.flac" = Some (Failure "unsupported format").
Proof.
  destruct (analyze_batch_complete sample_run sample_lib
              ["a.flac"; "bad.flac"; "c.flac"] None)
    as [(d & Hd & Hk & He) (d' & Hd' & Hk' & He')].
  - by apply (bool_decide_unpack _); vm_compute.
  - exact I.
  - by apply (bool_decide_unpack _); vm_compute.
  - reflexivity.
  - exists d, d'.
    split; [exact Hd|]. split; [exact Hd'|].
    split; [exact Hk|]. split; [exact Hk'|]. split.
    + destruct (He "bad.flac") as (r & Hr & ->);
        [by apply (bool_decide_unpack _); vm_compute|].
      vm_compute in Hr. congruence.
    + destruct (He' "bad.flac") as (r & Hr & ->);
        [by apply (bool_decide_unpack _); vm_compute|].
      vm_compute in Hr. congruence.
Defined.


(** C9, as amended.  For every sequence of file identifiers, every
    completion order and every worker count the pool accepts (unset, or at
    least one), the pool batch and the sequential batch return the same
    identifier-to-result map, the workers delivering what the per-file
    analysis computed. *)
Theorem batch_implementations_agree (run : AnalyzeBatch.PoolRun) (L : Librosa)
    (file_paths : list string) (workers : option Z) :
  pool_accepts workers →
  AnalyzeBatch.completion run ≡ₚ seq 0 (length file_paths) →
  (∀ i, AnalyzeBatch.crash run i = None) →
  ∃ d d',
    AnalyzeAudio.analyze_batch L file_paths = Ok d
    ∧ AnalyzeBatch.analyze_batch run L file_paths workers = Ok d'
    ∧ to_map d = to_map d'.
Proof.
  intros Hw Hperm Hcrash. eexists _, _.
  split; [apply sequential_batch_eq|].
  split; [apply pool_batch_eq; [done|by apply completion_range]|].
  apply map_eq. intros p.
  rewrite (batch_lookup L _ file_paths), (batch_lookup L _ file_paths); [done|..].
  - by apply pool_items.
  - intros kv (i & -> & _)%list_elem_of_fmap. unfold future_entry.
    by rewrite Hcrash.
  - by rewrite sequential_items.
  - by intros kv (q & -> & _)%list_elem_of_fmap.
Qed.

Lemma batch_implementations_agree_witness :
  ∃ d d',
    AnalyzeAudio.analyze_batch sample_lib
      ["a.flac"; "bad.flac"; "a.flac"] = Ok d
    ∧ AnalyzeBatch.analyze_batch sample_run sample_lib
        ["a.flac"; "bad.flac"; "a.flac"] (Some 2%Z) = Ok d'
    ∧ to_map d = to_map d'.
Proof.
  apply (batch_implementations_agree sample_run sample_lib
           ["a.flac"; "bad.flac"; "a.flac"] (Some 2%Z)).
  - simpl. lia.
  - by apply (bool_decide_unpack _); vm_compute.
  - reflexivity.
Defined.

(** C9, as stated, fails: with a worker count of zero the pool batch
    raises, while the sequential batch returns its map. *)
Lemma batch_implementations_differ_at_zero_workers :
  AnalyzeBatch.analyze_batch sample_run sample_lib
    ["a.flac"; "bad.flac"; "c.flac"] (Some 0%Z)
  = Raise (Exc "ValueError" "max_workers must be greater than 0")
  ∧ (∃ d, AnalyzeAudio.analyze_batch sample_lib
            ["a.flac"; "bad.flac"; "c.flac"] = Ok d)
  ∧ ¬ ∃ d d',
      AnalyzeAudio.analyze_batch sample_lib
        ["a.flac"; "bad.flac"; "c.flac"] = Ok d
      ∧ AnalyzeBatch.analyze_batch sample_run sample_lib
          ["a.flac"; "bad.flac"; "c.flac"] (Some 0%Z) = Ok d'
      ∧ to_map d = to_map d'.
Proof.
  assert (AnalyzeBatch.analyze_batch sample_run sample_lib
            ["a.flac"; "bad.flac"; "c.flac"] (Some 0%Z)
          = Raise (Exc "ValueError" "max_workers must be greater than 0"))
    as Hraise by (by apply pool_batch_rejected).
  split; [exact Hraise|]. split.
  - eexists. apply sequential_batch_eq.
  - intros (d & d' & _ & Hd' & _). rewrite Hraise in Hd'. discriminate.
Qed.

(** C10.  Whatever the submitted sequence, the result map of either batch
    function has the distinct identifiers as its keys, one entry for each
    of them and not one per occurrence: with a repeated identifier the map
    has fewer entries than items were submitted. *)
Theorem analyze_batch_duplicates (run : AnalyzeBatch.PoolRun) (L : Librosa)
    (file_paths : list string) (workers : option Z) :
  pool_accepts workers →
  AnalyzeBatch.completion run ≡ₚ seq 0 (length file_paths) →
  (∃ d, AnalyzeAudio.analyze_batch L file_paths = Ok d
        ∧ keyed_by_distinct file_paths d)
  ∧ (∃ d, AnalyzeBatch.analyze_batch run L file_paths workers = Ok d
          ∧ keyed_by_distinct file_paths d).
Proof.
  intros Hw Hperm. split.
  - eexists. split; [apply sequential_batch_eq|].
    apply batch_keyed_by_distinct. by rewrite sequential_items.
  - eexists. split; [apply pool_batch_eq; [done|by apply completion_range]|].
    apply batch_keyed_by_distinct. by apply pool_items.
Qed.

Lemma analyze_batch_duplicates_witness :
  ∃ d d',
    AnalyzeAudio.analyze_batch sample_lib
      ["a.flac"; "bad.flac"; "a.flac"] = Ok d
    ∧ AnalyzeBatch.analyze_batch sample_run sample_lib
        ["a.flac"; "bad.flac"; "a.flac"] None = Ok d'
    ∧ length d = 2%nat ∧ length d' = 2%nat.
Proof.
  destruct (analyze_batch_duplicates sample_run sample_lib
              ["a.flac"; "bad.flac"; "a.flac"] None)
    as [(d & Hd & _ & _ & Hlen & _) (d' & Hd' & _ & _ & Hlen' & _)].
  - exact I.
  - by apply (bool_decide_unpack _); vm_compute.
  - exists d, d'. split; [exact Hd|]. split; [exact Hd'|].
    split; [exact Hlen|exact Hlen'].
Defined.

(** ** Command line of analyze_batch.py *)

(** C3 fails on the code.  With exactly one identifier, [main] prints the
    result record of that file itself, not an object that maps the
    identifier to the record as it does for two or more identifiers and as
    the batch contract says. *)
Theorem single_item_output_is_not_a_map (run : AnalyzeBatch.PoolRun)
    (L : Librosa) (p : string) (workers : option Z) :
  AnalyzeBatch.main run L ["analyze_batch.py"; "--stdin"]
    {| AnalyzeBatch.files := Some [p]; AnalyzeBatch.workers := workers |}
  = Ok {| AnalyzeBatch.stdout := result_json (analysis L p);
          AnalyzeBatch.status := 0 |}
  ∧ AnalyzeBatch.main run L ["analyze_batch.py"; "a.flac"]
      {| AnalyzeBatch.files := None; AnalyzeBatch.workers := None |}
    = Ok {| AnalyzeBatch.stdout := result_json (analysis L "a.flac");
            AnalyzeBatch.status := 0 |}
  ∧ result_json (analysis L p) ≠ batch_contract_output L [p].
Proof.
  split; [|split].
  - unfold AnalyzeBatch.main. rewrite bool_decide_eq_true_2
      by (by apply (bool_decide_unpack _); vm_compute).
    cbn [default AnalyzeBatch.files AnalyzeBatch.workers]. unfold id.
    by rewrite analyze_single_eq.
  - unfold AnalyzeBatch.main. rewrite bool_decide_eq_false_2
      by (by apply (bool_decide_unpack _); vm_compute).
    replace (filter _ (tail ["analyze_batch.py"; "a.flac"])) with ["a.flac"]
      by (by vm_compute).
    by rewrite analyze_single_eq.
  - unfold batch_contract_output. destruct (analysis L p); discriminate.
Qed.

(** * Further properties of the code *)

(** ** KeyDetector: the label returned *)

(** From a best that is a number, the scan ends on a best that is a number
    no smaller, that no scanned entry exceeds, and that is the start or one
    of the entries. *)
Lemma scan_spec (l : list (Corr.t * string)) (st : Corr.t * string) (b : Qc) :
  st.1 = Corr.Sq b →
  ∃ b', (scan st l).1 = Corr.Sq b'
        ∧ b ≤ b'
        ∧ (∀ y, y ∈ l → Corr.gt y.1 (Corr.Sq b') = false)
        ∧ (scan st l = st ∨ scan st l ∈ l).
Proof.
  revert st b. induction l as [|y l IH]; intros st b Hst.
  - exists b. split; [done|]. split; [apply Qcle_refl|].
    split; [by intros y []%elem_of_nil|by left].
  - assert (∃ b1, (keep_best st y).1 = Corr.Sq b1 ∧ b ≤ b1
                  ∧ Corr.gt y.1 (Corr.Sq b1) = false
                  ∧ (keep_best st y = st ∨ keep_best st y = y))
      as (b1 & Hb1 & Hle1 & Hy & Hor).
    { unfold keep_best. rewrite Hst.
      destruct (Corr.gt y.1 (Corr.Sq b)) eqn:Hgt.
      - destruct y.1 as [|c] eqn:Hc; [done|]. simpl in Hgt.
        apply bool_decide_eq_true in Hgt. exists c.
        split; [done|]. split; [by apply Qclt_le_weak|].
        split; [|by right]. apply bool_decide_eq_false.
        intros Hirr. by apply (Qclt_not_eq _ _ Hirr).
      - exists b. split; [done|]. split; [apply Qcle_refl|].
        split; [done|by left]. }
    destruct (IH (keep_best st y) b1 Hb1) as (b' & Hb' & Hle & Hall & Hmem).
    exists b'. split; [exact Hb'|].
    split; [by apply Qcle_trans with b1|]. split.
    + intros z [->|Hz]%elem_of_cons; [|by apply Hall].
      destruct y.1 as [|c]; [done|]. simpl in *.
      apply bool_decide_eq_false in Hy. apply bool_decide_eq_false.
      intros Hlt. apply Hy. by apply Qcle_lt_trans with b'.
    + change (scan st (y :: l)) with (scan (keep_best st y) l).
      destruct Hmem as [->|Hmem]; [|right; by right].
      destruct Hor as [->| ->]; [by left|right; by left].
Qed.

Lemma label_default : label (0%nat, Major) = "C major".
Proof. reflexivity. Qed.

(** On a chroma matrix of twelve rows [detect_key] returns, and what it
    returns is the label of one of the 24 candidates. *)
Theorem detect_key_returns_candidate_label (chroma : chroma_matrix) :
  length chroma = 12%nat →
  ∃ c, c ∈ candidates ∧ detect_key chroma = Ok (label c).
Proof.
  intros Hlen. rewrite detect_key_scan by done.
  destruct (scan_spec
              ((λ c, (candidate_corr (mean_axis1 chroma) c, label c))
                 <$> candidates)
              (floor, "C major") _ eq_refl) as (b' & _ & _ & _ & [->|Hmem]).
  - exists (0%nat, Major). split; [|done].
    by apply (bool_decide_unpack _); vm_compute.
  - apply list_elem_of_fmap in Hmem as (c & -> & Hc). by exists c.
Qed.

Lemma detect_key_returns_candidate_label_witness :
  length tie_chroma = 12%nat
  ∧ ∃ c, c ∈ candidates ∧ detect_key tie_chroma = Ok (label c).
Proof.
  split; [reflexivity|].
  apply (detect_key_returns_candidate_label tie_chroma). reflexivity.
Defined.



Lemma candidate_corr_not_finite (v : list fnum) (x : fnum) (c : candidate) :
  x ∈ v → finite x = None → candidate_corr v c = Corr.NaN.
Proof.
  intros Hx Hnf. unfold candidate_corr, corrcoef01.
  destruct (decide (length v = _)); [|done].
  destruct (mapM finite v) as [xs|] eqn:Hv.
  - exfalso. assert (is_Some (mapM finite v)) as Hs by (by rewrite Hv).
    rewrite mapM_is_Some, Forall_forall in Hs.
    destruct (Hs x Hx) as [q Hq]. simpl in Hq. congruence.
  - by destruct (mapM finite _).
Qed.

(** A pitch class whose frame mean is not a finite number (no frames at
    all, a [nan] or an infinite value among them) makes every correlation
    [nan], and the key is reported as the default ["C major"]. *)
Theorem detect_key_not_finite (chroma : chroma_matrix) (row : list fnum) :
  length chroma = 12%nat →
  row ∈ chroma →
  finite (np_mean row) = None →
  detect_key chroma = Ok "C major".
Proof.
  intros Hlen Hrow Hnf. rewrite detect_key_scan by done.
  rewrite scan_stable; [done|].
  intros y (c & -> & Hc)%list_elem_of_fmap. cbn [fst].
  rewrite (candidate_corr_not_finite _ (np_mean row)); [done| |done].
  unfold mean_axis1. apply list_elem_of_fmap. by exists row.
Qed.

Lemma detect_key_not_finite_witness :
  length (replicate 12 ([] : list fnum)) = 12%nat
  ∧ detect_key (replicate 12 []) = Ok "C major".
Proof.
  split; [reflexivity|].
  apply (detect_key_not_finite (replicate 12 []) []).
  - reflexivity.
  - by apply (bool_decide_unpack _); vm_compute.
  - reflexivity.
Defined.

(** ** MoodClassifier: when each label is returned *)

Lemma gt_weaken (x : fnum) (a b : Qc) :
  b ≤ a → gt x (Fin a) = true → gt x (Fin b) = true.
Proof.
  intros Hba. destruct x as [| |q|]; simpl; try done.
  intros Ha%bool_decide_eq_true. apply bool_decide_eq_true.
  by apply Qcle_lt_trans with a.
Qed.

Lemma lt_weaken (x : fnum) (a b : Qc) :
  a ≤ b → lt x (Fin a) = true → lt x (Fin b) = true.
Proof.
  intros Hab. unfold lt. destruct x as [| |q|]; simpl; try done.
  intros Ha%bool_decide_eq_true. apply bool_decide_eq_true.
  by apply Qclt_le_trans with a.
Qed.

Lemma gt_lt_exclusive (x : fnum) (a b : Qc) :
  a ≤ b → gt x (Fin b) = true → lt x (Fin a) = false.
Proof.
  intros Hab. unfold lt. destruct x as [| |q|]; simpl; try done.
  intros Hb%bool_decide_eq_true. apply bool_decide_eq_false.
  intros Ha. apply (Qclt_not_le _ _ Hb).
  apply Qcle_trans with a; [by apply Qclt_le_weak|done].
Qed.

(** The conditions under which [classify_mood] returns each of its five
    rule labels, once the shadowing of later rules by earlier ones is
    taken into account: ["melancholic"] and ["energetic"] fire on their
    own condition alone; ["happy"] needs rule 1 to fail; ["chill"] needs
    rule 3 to fail; ["intense"] is returned exactly for an energy above 0.7
    with neither a tempo above 120 nor a valence above 0.5. *)
Theorem classify_mood_label_conditions (energy valence tempo : fnum) :
  (classify_mood energy valence tempo = "energetic" ↔
     gt energy (Fin (dec 6 10)) = true ∧ gt tempo (of_Z 120) = true)
  ∧ (classify_mood energy valence tempo = "happy" ↔
       gt energy (Fin (dec 5 10)) = true ∧ gt valence (Fin (dec 5 10)) = true
       ∧ ¬ (gt energy (Fin (dec 6 10)) = true ∧ gt tempo (of_Z 120) = true))
  ∧ (classify_mood energy valence tempo = "melancholic" ↔
       lt energy (Fin (dec 4 10)) = true ∧ lt valence (Fin (dec 4 10)) = true)
  ∧ (classify_mood energy valence tempo = "chill" ↔
       lt energy (Fin (dec 5 10)) = true ∧ lt tempo (of_Z 100) = true
       ∧ ¬ (lt energy (Fin (dec 4 10)) = true
            ∧ lt valence (Fin (dec 4 10)) = true))
  ∧ (classify_mood energy valence tempo = "intense" ↔
       gt energy (Fin (dec 7 10)) = true
       ∧ gt tempo (of_Z 120) = false ∧ gt valence (Fin (dec 5 10)) = false).
Proof.
  assert (gt energy (Fin (dec 7 10)) = true → gt energy (Fin (dec 6 10)) = true)
    as H76 by (apply gt_weaken; by vm_compute).
  assert (gt energy (Fin (dec 6 10)) = true → gt energy (Fin (dec 5 10)) = true)
    as H65 by (apply gt_weaken; by vm_compute).
  assert (gt energy (Fin (dec 5 10)) = true → lt energy (Fin (dec 5 10)) = false)
    as H55 by (apply gt_lt_exclusive; by vm_compute).
  assert (lt energy (Fin (dec 4 10)) = true → lt energy (Fin (dec 5 10)) = true)
    as H45 by (apply lt_weaken; by vm_compute).
  assert (gt tempo (of_Z 120) = true → lt tempo (of_Z 100) = false)
    as Ht by (apply gt_lt_exclusive; by vm_compute).
  unfold classify_mood.
  destruct (gt energy (Fin (dec 7 10))), (gt energy (Fin (dec 6 10))),
    (gt energy (Fin (dec 5 10))), (lt energy (Fin (dec 5 10))),
    (lt energy (Fin (dec 4 10))), (gt tempo (of_Z 120)),
    (lt tempo (of_Z 100)), (gt valence (Fin (dec 5 10))),
    (lt valence (Fin (dec 4 10))); simpl;
    try (specialize (H76 eq_refl); discriminate);
    try (specialize (H65 eq_refl); discriminate);
    try (specialize (H55 eq_refl); discriminate);
    try (specialize (H45 eq_refl); discriminate);
    try (specialize (Ht eq_refl); discriminate);
    clear H76 H65 H55 H45 Ht;
    repeat split; intros; try discriminate; try done;
    intuition discriminate.
Qed.

(** ** FeatureExtractor: when it succeeds and what it reports *)

Lemma detect_key_ok_rows (chroma : chroma_matrix) (k : string) :
  detect_key chroma = Ok k → length chroma = 12%nat.
Proof.
  intros Hk. destruct (decide (length chroma = 12%nat)) as [|Hne]; [done|].
  destruct (detect_key_raise chroma Hne) as [e He]. congruence.
Qed.

Lemma index0_ok {A} (a : list A) (x : A) :
  index0 a = Ok x → ∃ rest, a = x :: rest.
Proof. destruct a as [|x' rest]; [done|]. intros [= ->]. by exists rest. Qed.

(** A successful analysis comes from a run in which every library call
    returned, the chroma matrix had twelve rows and the RMS and centroid
    arrays had a first row; the record holds the values computed from it. *)
Lemma analyze_success_inv (L : Librosa) (file_path : string) (f : features) :
  AnalyzeAudio.analyze L file_path = Ok (Success f) →
  ∃ r : analysis_run L file_path,
    detect_key (run_chroma r) = Ok (key f)
    ∧ bpm f = py_round (run_bpm r) 1
    ∧ energy f
      = py_round (clamp01 (div_pos (np_mean (run_rms r)) (dec 15 100))) 3
    ∧ danceability f = py_round (clamp01 (np_mean (run_pulse r))) 3
    ∧ valence f
      = py_round (clamp01 (div_pos (np_mean (run_centroid r))
                                   (Qc_of_Z 5000))) 3
    ∧ mood f
      = classify_mood
          (clamp01 (div_pos (np_mean (run_rms r)) (dec 15 100)))
          (clamp01 (div_pos (np_mean (run_centroid r)) (Qc_of_Z 5000)))
          (run_bpm r).
Proof.
  rewrite analyze_eq. intros [= Hf]. unfold analysis in Hf.
  destruct (AnalyzeAudio.analyze_try L file_path) as [res|e] eqn:Htry;
    [subst res|done].
  unfold AnalyzeAudio.analyze_try in Htry.
  destruct (load L file_path) as [[y sr]|] eqn:Hload; simpl in Htry; [|done].
  destruct (beat_track L y sr) as [[tempo beats]|] eqn:Hbeat;
    simpl in Htry; [|done].
  change (match tempo with
          | TempoScalar t => mret t
          | TempoArray a => index0 a
          end) with (tempo_bpm tempo) in Htry.
  destruct (tempo_bpm tempo) as [bpm_|] eqn:Hbpm; simpl in Htry; [|done].
  destruct (chroma_cqt L y sr) as [chroma|] eqn:Hchroma;
    simpl in Htry; [|done].
  destruct (detect_key chroma) as [k|] eqn:Hkey; simpl in Htry; [|done].
  destruct (rms L y) as [rms2|] eqn:Hrms; simpl in Htry; [|done].
  destruct (index0 rms2) as [row|] eqn:Hrow; simpl in Htry; [|done].
  destruct (onset_strength L y sr) as [env|] eqn:Honset;
    simpl in Htry; [|done].
  destruct (plp L env sr) as [pulse|] eqn:Hplp; simpl in Htry; [|done].
  destruct (spectral_centroid L y sr) as [cen2|] eqn:Hcen;
    simpl in Htry; [|done].
  destruct (index0 cen2) as [crow|] eqn:Hcrow; simpl in Htry; [|done].
  injection Htry as <-.
  apply index0_ok in Hrow as [rest ->]. apply index0_ok in Hcrow as [crest ->].
  by exists {| run_load := Hload; run_beat_track := Hbeat;
               run_tempo_bpm := Hbpm; run_chroma_cqt := Hchroma;
               run_chroma_rows := detect_key_ok_rows _ _ Hkey;
               run_rms_call := Hrms; run_onset_strength := Honset;
               run_plp := Hplp; run_spectral_centroid := Hcen |}.
Qed.

(** The analysis succeeds exactly when there is such a run. *)
Theorem analyze_succeeds_iff (L : Librosa) (file_path : string) :
  (∃ f, AnalyzeAudio.analyze L file_path = Ok (Success f))
  ↔ inhabited (analysis_run L file_path).
Proof.
  split.
  - intros [f Hf]. by destruct (analyze_success_inv L file_path f Hf) as [r _].
  - intros [r]. rewrite analyze_eq. unfold analysis, AnalyzeAudio.analyze_try.
    rewrite (run_load _ _ r). cbn [mbind M_bind].
    rewrite (run_beat_track _ _ r). cbn [mbind M_bind].
    change (match run_tempo r with
            | TempoScalar t => mret t
            | TempoArray a => index0 a
            end) with (tempo_bpm (run_tempo r)).
    rewrite (run_tempo_bpm _ _ r). cbn [mbind M_bind].
    rewrite (run_chroma_cqt _ _ r). cbn [mbind M_bind].
    rewrite (detect_key_scan _ (run_chroma_rows _ _ r)). cbn [mbind M_bind].
    rewrite (run_rms_call _ _ r). cbn [mbind M_bind index0 mret M_ret].
    rewrite (run_onset_strength _ _ r). cbn [mbind M_bind].
    rewrite (run_plp _ _ r). cbn [mbind M_bind].
    rewrite (run_spectral_centroid _ _ r). cbn [mbind M_bind index0 mret M_ret].
    by eexists.
Qed.

Lemma Qc_of_Z_0 : Qc_of_Z 0 = 0.
Proof. by apply Qc_is_canon. Qed.

Lemma Qc_of_Z_1 : Qc_of_Z 1 = 1.
Proof. by apply Qc_is_canon. Qed.

Lemma Qcdiv_pos_iff (x d : Qc) : 0 < d → 0 < x / d ↔ 0 < x.
Proof.
  intros Hd. unfold Qcdiv.
  rewrite (Qcmult_lt_mono_pos_r 0 x (/ d)) by by apply Qcinv_pos.
  by rewrite Qcmult_0_l.
Qed.

Lemma Qcdiv_lt_1_iff (x d : Qc) : 0 < d → x / d < 1 ↔ x < d.
Proof.
  intros Hd. unfold Qcdiv.
  rewrite (Qcmult_lt_mono_pos_r x d (/ d)) by by apply Qcinv_pos.
  rewrite Qcmult_inv_r; [done|].
  intros ->. by apply Qclt_not_eq in Hd.
Qed.

(** Normalising by a positive divisor and clamping: everything that is not
    above zero, [nan] included, becomes [0.0]; everything not below the
    divisor becomes [1.0]. *)
Lemma clamp01_div_low (x : fnum) (d : Qc) :
  0 < d → gt x (of_Z 0) = false → clamp01 (div_pos x d) = of_Z 0.
Proof.
  intros Hd. unfold clamp01, py_min, py_max, lt, of_Z. rewrite Qc_of_Z_0.
  destruct x as [| |q|]; simpl; try done.
  intros Hq%bool_decide_eq_false.
  rewrite bool_decide_eq_false_2 by by rewrite Qcdiv_pos_iff.
  by rewrite bool_decide_eq_true_2 by by vm_compute.
Qed.

Lemma clamp01_div_high (x : fnum) (d : Qc) :
  0 < d → gt x (of_Z 0) = true → lt x (Fin d) = false →
  clamp01 (div_pos x d) = of_Z 1.
Proof.
  intros Hd. unfold clamp01, py_min, py_max, lt, of_Z.
  rewrite Qc_of_Z_0, Qc_of_Z_1.
  destruct x as [| |q|]; simpl; try done.
  intros Hq%bool_decide_eq_true Hqd%bool_decide_eq_false.
  rewrite bool_decide_eq_true_2 by by rewrite Qcdiv_pos_iff.
  simpl. by rewrite bool_decide_eq_false_2 by by rewrite Qcdiv_lt_1_iff.
Qed.

Lemma div_pos_1 (x : fnum) : div_pos x 1 = x.
Proof.
  destruct x as [| |q|]; simpl; try done. f_equal.
  unfold Qcdiv. rewrite <- (Qcmult_1_l (/ 1)), Qcmult_inv_r; [|done].
  apply Qcmult_1_r.
Qed.

Lemma py_round_3_of_0 : py_round (of_Z 0) 3 = of_Z 0.
Proof. unfold py_round, of_Z. f_equal. apply Qc_is_canon. by vm_compute. Qed.

Lemma py_round_3_of_1 : py_round (of_Z 1) 3 = of_Z 1.
Proof. unfold py_round, of_Z. f_equal. apply Qc_is_canon. by vm_compute. Qed.

(** What the three normalised fields of a successful analysis are at the
    two ends of their range.  A mean that is not above zero, be it zero,
    negative or [nan] (an empty array), is reported as [0.0]; a mean not
    below the divisor (0.15 for the RMS energy, 5000 for the spectral
    centroid, 1 for the pulse) is reported as [1.0]. *)
Theorem analyze_fields_saturate (L : Librosa) (file_path : string)
    (f : features) (r : analysis_run L file_path) :
  AnalyzeAudio.analyze L file_path = Ok (Success f) →
  (gt (np_mean (run_rms r)) (of_Z 0) = false → energy f = of_Z 0)
  ∧ (gt (np_mean (run_rms r)) (of_Z 0) = true →
     lt (np_mean (run_rms r)) (Fin (dec 15 100)) = false →
     energy f = of_Z 1)
  ∧ (gt (np_mean (run_pulse r)) (of_Z 0) = false → danceability f = of_Z 0)
  ∧ (gt (np_mean (run_pulse r)) (of_Z 0) = true →
     lt (np_mean (run_pulse r)) (of_Z 1) = false →
     danceability f = of_Z 1)
  ∧ (gt (np_mean (run_centroid r)) (of_Z 0) = false → valence f = of_Z 0)
  ∧ (gt (np_mean (run_centroid r)) (of_Z 0) = true →
     lt (np_mean (run_centroid r)) (of_Z 5000) = false →
     valence f = of_Z 1).
Proof.
  intros Hf.
  destruct (analyze_success_inv L file_path f Hf)
    as (r' & _ & _ & He & Hd & Hv & _).
  assert (run_rms r' = run_rms r ∧ run_pulse r' = run_pulse r
          ∧ run_centroid r' = run_centroid r) as (Hrms & Hpulse & Hcen).
  { pose proof (run_load _ _ r) as H1. pose proof (run_load _ _ r') as H1'.
    rewrite H1 in H1'. injection H1' as Hy Hsr.
    pose proof (run_rms_call _ _ r) as H2.
    pose proof (run_rms_call _ _ r') as H2'.
    pose proof (run_onset_strength _ _ r) as H3.
    pose proof (run_onset_strength _ _ r') as H3'.
    pose proof (run_plp _ _ r) as H4. pose proof (run_plp _ _ r') as H4'.
    pose proof (run_spectral_centroid _ _ r) as H5.
    pose proof (run_spectral_centroid _ _ r') as H5'.
    rewrite <- Hy, <- Hsr in *. rewrite H2 in H2'. rewrite H3 in H3'.
    rewrite H5 in H5'. injection H2' as <- _. injection H3' as Henv.
    injection H5' as <- _. rewrite <- Henv in H4'. rewrite H4 in H4'.
    by injection H4' as <-. }
  rewrite Hrms in He. rewrite Hpulse in Hd. rewrite Hcen in Hv.
  rewrite <- (div_pos_1 (np_mean (run_pulse r))) in Hd.
  rewrite He, Hd, Hv. repeat split.
  - intros H0. rewrite clamp01_div_low; [apply py_round_3_of_0|by vm_compute|done].
  - intros H0 H1. rewrite clamp01_div_high;
      [apply py_round_3_of_1|by vm_compute|done..].
  - intros H0. rewrite clamp01_div_low; [apply py_round_3_of_0|by vm_compute|done].
  - intros H0 H1.
    rewrite clamp01_div_high; [apply py_round_3_of_1|by vm_compute|done|].
    unfold of_Z in H1. by rewrite Qc_of_Z_1 in H1.
  - intros H0. rewrite clamp01_div_low; [apply py_round_3_of_0|by vm_compute|done].
  - intros H0 H1. rewrite clamp01_div_high;
      [apply py_round_3_of_1|by vm_compute|done..].
Qed.

Lemma analyze_fields_saturate_witness :
  ∃ f, AnalyzeAudio.analyze sample_lib "a.flac" = Ok (Success f)
       ∧ energy f = of_Z 1.
Proof.
  eexists. split; [by vm_compute|].
  apply (analyze_fields_saturate sample_lib "a.flac" _ sample_analysis_run);
    by vm_compute.
Defined.

(** ** BatchOrchestrator: order of the entries, crashed workers *)

Lemma dict_set_fresh {V} (k : string) (v : V) (d : pydict V) :
  k ∉ keys d → dict_set k v d = (d ++ [(k, v)])%list.
Proof.
  unfold keys. induction d as [|[k' v'] d IH]; intros Hk; simpl; [done|].
  rewrite fmap_cons in Hk. apply not_elem_of_cons in Hk as [Hne Hk].
  rewrite decide_False by done. by rewrite IH.
Qed.

Lemma dict_update_fresh {V} (d : pydict V) (items : list (string * V)) :
  NoDup (keys d ++ items.*1)%list → dict_update d items = (d ++ items)%list.
Proof.
  unfold dict_update, keys. revert d.
  induction items as [|[k v] items IH]; intros d Hnd; simpl.
  - by rewrite app_nil_r.
  - rewrite fmap_cons in Hnd. simpl in Hnd.
    rewrite dict_set_fresh.
    + rewrite IH; [by rewrite <- app_assoc|].
      rewrite fmap_app. simpl. by rewrite <- app_assoc.
    + apply NoDup_app in Hnd as (_ & Hnd & _). intros Hk.
      apply (Hnd k Hk). by left.
Qed.

(** On distinct paths the sequential batch returns its entries in
    submission order: the dictionary is the list of the paths, each with
    its analysis. *)
Theorem sequential_batch_in_submission_order (L : Librosa)
    (file_paths : list string) :
  NoDup file_paths →
  AnalyzeAudio.analyze_batch L file_paths
  = Ok ((λ p, (p, analysis L p)) <$> file_paths).
Proof.
  intros Hnd. rewrite sequential_batch_eq. f_equal.
  rewrite dict_update_fresh; [done|]. simpl. by rewrite sequential_items.
Qed.

Lemma sequential_batch_in_submission_order_witness :
  NoDup ["c.flac"; "bad.flac"; "a.flac"]
  ∧ AnalyzeAudio.analyze_batch sample_lib ["c.flac"; "bad.flac"; "a.flac"]
    = Ok ((λ p, (p, analysis sample_lib p))
            <$> ["c.flac"; "bad.flac"; "a.flac"]).
Proof.
  assert (NoDup ["c.flac"; "bad.flac"; "a.flac"]) as Hnd
    by (by apply (bool_decide_unpack _); vm_compute).
  split; [exact Hnd|].
  apply (sequential_batch_in_submission_order sample_lib _ Hnd).
Defined.

(** On distinct paths the pool batch returns its entries in completion
    order, each path with what its own future delivered: the analysis of
    the path, or the failure record made from the exception of a worker
    that crashed. *)
Theorem pool_batch_in_completion_order (run : AnalyzeBatch.PoolRun)
    (L : Librosa) (file_paths : list string) (workers : option Z) :
  NoDup file_paths →
  pool_accepts workers →
  AnalyzeBatch.completion run ≡ₚ seq 0 (length file_paths) →
  AnalyzeBatch.analyze_batch run L file_paths workers
  = Ok ((λ i, (file_paths !!! i, future_entry run L i (file_paths !!! i)))
          <$> AnalyzeBatch.completion run).
Proof.
  intros Hnd Hw Hperm.
  rewrite pool_batch_eq; [|done|by apply completion_range]. f_equal.
  rewrite dict_update_fresh; [done|]. simpl.
  by rewrite (pool_items L run file_paths Hperm).
Qed.

Lemma pool_batch_in_completion_order_witness :
  ∃ d, AnalyzeBatch.analyze_batch sample_run sample_lib
         ["a.flac"; "bad.flac"; "c.flac"] (Some 3%Z) = Ok d
       ∧ keys d = ["c.flac"; "a.flac"; "bad.flac"].
Proof.
  eexists. split.
  - apply (pool_batch_in_completion_order sample_run sample_lib
             ["a.flac"; "bad.flac"; "c.flac"] (Some 3%Z)).
    + by apply (bool_decide_unpack _); vm_compute.
    + simpl. lia.
    + by apply (bool_decide_unpack _); vm_compute.
  - reflexivity.
Defined.

(** ** The two command lines *)

(** analyze_audio.py never ends in a traceback: it prints one JSON object,
    the usage error with exit status 1 when no path is given, and otherwise
    the result of analyzing its first argument, with exit status 0 whether
    that result is a success or a failure; further arguments are ignored. *)
Theorem single_file_cli (L : Librosa) (argv : list string) :
  ∃ o, AnalyzeAudio.main L argv = Ok o
       ∧ (AnalyzeAudio.status o = 1%Z ↔ (length argv < 2)%nat)
       ∧ ((length argv < 2)%nat →
          AnalyzeAudio.stdout o
          = JObj [("error", JStr "Usage: python3 analyze_audio.py <file_path>")])
       ∧ (∀ p, argv !! 1%nat = Some p →
            AnalyzeAudio.stdout o = result_json (analysis L p)
            ∧ AnalyzeAudio.status o = 0%Z).
Proof.
  unfold AnalyzeAudio.main. destruct (decide (length argv < 2)%nat) as [Hlt|Hge].
  - eexists. split; [done|]. simpl. split; [done|]. split; [done|].
    intros p Hp%lookup_lt_Some. lia.
  - destruct (argv !! 1%nat) as [p|] eqn:Hp.
    + rewrite analyze_eq. eexists. split; [done|]. simpl.
      split; [split; [done|lia]|]. split; [lia|]. by intros ? [= <-].
    + apply lookup_ge_None in Hp. lia.
Qed.

(** Given one positional path, analyze_batch.py prints exactly what
    analyze_audio.py prints for it, with the same exit status. *)
Theorem batch_cli_agrees_with_single_file_cli (run : AnalyzeBatch.PoolRun)
    (L : Librosa) (prog prog' p : string) (input_data : AnalyzeBatch.stdin_json) :
  prog' ≠ "--stdin" →
  String.prefix "--" p = false →
  ∃ o o', AnalyzeAudio.main L [prog; p] = Ok o
          ∧ AnalyzeBatch.main run L [prog'; p] input_data = Ok o'
          ∧ AnalyzeAudio.stdout o = AnalyzeBatch.stdout o'
          ∧ AnalyzeAudio.status o = AnalyzeBatch.status o'.
Proof.
  intros Hprog Hp.
  assert (p ≠ "--stdin") as Hp' by (intros ->; discriminate).
  eexists _, _. split; [|split].
  - unfold AnalyzeAudio.main. simpl. by rewrite analyze_eq.
  - unfold AnalyzeBatch.main.
    rewrite bool_decide_eq_false_2
      by (intros [?|[?|[]%elem_of_nil]%elem_of_cons]%elem_of_cons; congruence).
    cbn [tail]. rewrite filter_cons_True by (rewrite Hp; by intros []).
    rewrite filter_nil. by rewrite analyze_single_eq.
  - done.
Qed.

Lemma batch_cli_agrees_with_single_file_cli_witness :
  ∃ o o', AnalyzeAudio.main sample_lib ["analyze_audio.py"; "bad.flac"] = Ok o
          ∧ AnalyzeBatch.main sample_run sample_lib
              ["analyze_batch.py"; "bad.flac"]
              {| AnalyzeBatch.files := None; AnalyzeBatch.workers := None |}
            = Ok o'
          ∧ AnalyzeAudio.stdout o = AnalyzeBatch.stdout o'
          ∧ AnalyzeAudio.status o = AnalyzeBatch.status o'.
Proof.
  apply (batch_cli_agrees_with_single_file_cli sample_run sample_lib
           "analyze_audio.py" "analyze_batch.py" "bad.flac").
  - discriminate.
  - reflexivity.
Defined.

(** analyze_batch.py without any file to analyze prints the error object
    and exits with status 1: in [--stdin] mode when the ["files"] key is
    missing or holds an empty list, on the command line when every argument
    after the program name starts with [--]. *)
Theorem batch_cli_no_files (run : AnalyzeBatch.PoolRun) (L : Librosa)
    (argv : list string) (input_data : AnalyzeBatch.stdin_json) :
  (("--stdin" ∈ argv) ∧ default [] (AnalyzeBatch.files input_data) = [])
  ∨ (("--stdin" ∉ argv)
     ∧ Forall (λ arg, String.prefix "--" arg = true) (tail argv)) →
  AnalyzeBatch.main run L argv input_data
  = Ok {| AnalyzeBatch.stdout := JObj [("error", JStr "No files provided")];
          AnalyzeBatch.status := 1 |}.
Proof.
  unfold AnalyzeBatch.main. intros [[Hin Hfiles]|[Hnotin Hopts]].
  - rewrite bool_decide_eq_true_2 by done. by rewrite Hfiles.
  - rewrite bool_decide_eq_false_2 by done.
    assert (filter (λ arg, ¬ String.prefix "--" arg) (tail argv) = []) as ->;
      [|done].
    induction Hopts as [|arg args Harg _ IH]; [done|].
    rewrite filter_cons_False; [done|]. rewrite Harg. by intros [].
Qed.

Lemma batch_cli_no_files_witness :
  AnalyzeBatch.main sample_run sample_lib ["analyze_batch.py"; "--workers"]
    {| AnalyzeBatch.files := None; AnalyzeBatch.workers := None |}
  = Ok {| AnalyzeBatch.stdout := JObj [("error", JStr "No files provided")];
          AnalyzeBatch.status := 1 |}
  ∧ AnalyzeBatch.main sample_run sample_lib ["analyze_batch.py"; "--stdin"]
      {| AnalyzeBatch.files := None; AnalyzeBatch.workers := Some 2%Z |}
    = Ok {| AnalyzeBatch.stdout := JObj [("error", JStr "No files provided")];
            AnalyzeBatch.status := 1 |}.
Proof.
  split; apply batch_cli_no_files.
  - right. split; [by apply (bool_decide_unpack _); vm_compute|].
    by repeat constructor.
  - left. split; [by apply (bool_decide_unpack _); vm_compute|done].
Defined.

(** In [--stdin] mode with two or more files and a worker count the pool
    accepts, analyze_batch.py prints the result map of [analyze_batch] as
    one JSON object, keyed by the distinct paths, and exits with status 0
    whatever the per-file results are. *)
Theorem batch_cli_stdin_output (run : AnalyzeBatch.PoolRun) (L : Librosa)
    (argv : list string) (input_data : AnalyzeBatch.stdin_json)
    (file_paths : list string) :
  "--stdin" ∈ argv →
  AnalyzeBatch.files input_data = Some file_paths →
  (2 ≤ length file_paths)%nat →
  pool_accepts (AnalyzeBatch.workers input_data) →
  AnalyzeBatch.completion run ≡ₚ seq 0 (length file_paths) →
  ∃ d, AnalyzeBatch.analyze_batch run L file_paths
         (AnalyzeBatch.workers input_data) = Ok d
       ∧ keyed_by_distinct file_paths d
       ∧ AnalyzeBatch.main run L argv input_data
         = Ok {| AnalyzeBatch.stdout := dict_json d;
                 AnalyzeBatch.status := 0 |}.
Proof.
  intros Hin Hfiles Hlen Hw Hperm.
  pose proof (pool_batch_eq run L file_paths _ Hw
                (completion_range run file_paths Hperm)) as Hd.
  eexists. split; [exact Hd|].
  split; [apply batch_keyed_by_distinct; by apply pool_items|].
  unfold AnalyzeBatch.main. rewrite bool_decide_eq_true_2 by done.
  rewrite Hfiles. cbn [default]. unfold id.
  destruct file_paths as [|p1 [|p2 rest]]; simpl in Hlen; [lia..|].
  by rewrite Hd.
Qed.

Lemma batch_cli_stdin_output_witness :
  ∃ d, keyed_by_distinct ["a.flac"; "bad.flac"; "a.flac"] d
       ∧ AnalyzeBatch.main sample_run sample_lib
           ["analyze_batch.py"; "--stdin"]
           {| AnalyzeBatch.files := Some ["a.flac"; "bad.flac"; "a.flac"];
              AnalyzeBatch.workers := Some 2%Z |}
         = Ok {| AnalyzeBatch.stdout := dict_json d;
                 AnalyzeBatch.status := 0 |}.
Proof.
  destruct (batch_cli_stdin_output sample_run sample_lib
              ["analyze_batch.py"; "--stdin"]
              {| AnalyzeBatch.files := Some ["a.flac"; "bad.flac"; "a.flac"];
                 AnalyzeBatch.workers := Some 2%Z |}
              ["a.flac"; "bad.flac"; "a.flac"]) as (d & _ & Hk & Hmain).
  - by apply (bool_decide_unpack _); vm_compute.
  - reflexivity.
  - simpl. lia.
  - simpl. lia.
  - by apply (bool_decide_unpack _); vm_compute.
  - exists d. split; [exact Hk|exact Hmain].
Defined.

(** In [--stdin] mode with two or more files, a ["workers"] value of zero
    or less makes analyze_batch.py end in an uncaught [ValueError]: nothing
    is printed. *)
Theorem batch_cli_rejects_workers (run : AnalyzeBatch.PoolRun) (L : Librosa)
    (argv : list string) (input_data : AnalyzeBatch.stdin_json)
    (file_paths : list string) (n : Z) :
  "--stdin" ∈ argv →
  AnalyzeBatch.files input_data = Some file_paths →
  (2 ≤ length file_paths)%nat →
  AnalyzeBatch.workers input_data = Some n →
  (n ≤ 0)%Z →
  AnalyzeBatch.main run L argv input_data
  = Raise (Exc "ValueError" "max_workers must be greater than 0").
Proof.
  intros Hin Hfiles Hlen Hw Hn.
  unfold AnalyzeBatch.main. rewrite bool_decide_eq_true_2 by done.
  rewrite Hfiles, Hw. cbn [default]. unfold id.
  destruct file_paths as [|p1 [|p2 rest]]; simpl in Hlen; [lia..|].
  by rewrite pool_batch_rejected.
Qed.

Lemma batch_cli_rejects_workers_witness :
  AnalyzeBatch.main sample_run sample_lib ["analyze_batch.py"; "--stdin"]
    {| AnalyzeBatch.files := Some ["a.flac"; "c.flac"];
       AnalyzeBatch.workers := Some 0%Z |}
  = Raise (Exc "ValueError" "max_workers must be greater than 0").
Proof.
  apply (batch_cli_rejects_workers sample_run sample_lib _ _
           ["a.flac"; "c.flac"] 0).
  - by apply (bool_decide_unpack _); vm_compute.
  - reflexivity.
  - simpl. lia.
  - reflexivity.
  - lia.
Defined.

(** Without [--stdin], analyze_batch.py never ends in a traceback: the
    worker count is left unset, and the process prints one JSON object,
    with status 1 exactly when no argument is left after dropping those
    that start with [--]. *)
Theorem batch_cli_positional_returns (run : AnalyzeBatch.PoolRun)
    (L : Librosa) (argv : list string) (input_data : AnalyzeBatch.stdin_json) :
  "--stdin" ∉ argv →
  AnalyzeBatch.completion run
    ≡ₚ seq 0 (length (filter (λ arg, ¬ String.prefix "--" arg) (tail argv))) →
  ∃ o, AnalyzeBatch.main run L argv input_data = Ok o
       ∧ (AnalyzeBatch.status o = 1%Z
          ↔ filter (λ arg, ¬ String.prefix "--" arg) (tail argv) = []).
Proof.
  intros Hnotin Hperm. unfold AnalyzeBatch.main.
  rewrite bool_decide_eq_false_2 by done.
  set (paths := filter (λ arg, ¬ String.prefix "--" arg) (tail argv)) in *.
  pose proof (pool_batch_eq run L paths None I
                (completion_range run paths Hperm)) as Hd.
  destruct paths as [|p1 [|p2 rest]] eqn:Hpaths.
  - by eexists.
  - rewrite analyze_single_eq. by eexists.
  - rewrite Hd. by eexists.
Qed.

Lemma batch_cli_positional_returns_witness :
  ∃ o, AnalyzeBatch.main sample_run sample_lib
         ["analyze_batch.py"; "a.flac"; "--fast"; "bad.flac"; "c.flac"]
         {| AnalyzeBatch.files := None; AnalyzeBatch.workers := None |} = Ok o
       ∧ (AnalyzeBatch.status o = 1%Z
          ↔ filter (λ arg, ¬ String.prefix "--" arg)
              (tail ["analyze_batch.py"; "a.flac"; "--fast"; "bad.flac";
                     "c.flac"]) = []).
Proof.
  apply (batch_cli_positional_returns sample_run sample_lib).
  - by apply (bool_decide_unpack _); vm_compute.
  - by apply (bool_decide_unpack _); vm_compute.
Defined.


(** ** FeatureExtractor: precision of the fields, malformed chroma *)

Lemma py_round_three_decimals (x : fnum) :
  unit_interval x → three_decimals (py_round x 3).
Proof.
  intros (q & -> & Hq0 & Hq1). unfold three_decimals, py_round.
  change (10 ^ Z.of_nat 3)%Z with 1000%Z.
  exists (round_half_even (this q * inject_Z 1000)). split; [|done].
  unfold Qcle in Hq0, Hq1. simpl in Hq0, Hq1.
  change (Qred 0) with 0%Q in Hq0. change (Qred 1) with 1%Q in Hq1.
  apply round_half_even_bounds.
  - change (inject_Z 0) with 0%Q. change (inject_Z 1000) with (1000 # 1)%Q. lra.
  - change (inject_Z 1000) with (1000 # 1)%Q. lra.
Qed.

(** In a successful result the energy, danceability and valence are
    multiples of 0.001 between 0 and 1. *)
Theorem analyze_fields_three_decimals (L : Librosa) (file_path : string)
    (f : features) :
  AnalyzeAudio.analyze L file_path = Ok (Success f) →
  three_decimals (energy f) ∧ three_decimals (danceability f)
  ∧ three_decimals (valence f).
Proof.
  intros Hf.
  destruct (analyze_success_inv L file_path f Hf)
    as (r & _ & _ & -> & -> & -> & _).
  repeat split; apply py_round_three_decimals, clamp_unit_interval.
Qed.

Lemma analyze_fields_three_decimals_witness :
  ∃ f, AnalyzeAudio.analyze sample_lib "a.flac" = Ok (Success f)
       ∧ three_decimals (energy f) ∧ three_decimals (danceability f)
       ∧ three_decimals (valence f).
Proof.
  eexists. split; [by vm_compute|].
  apply (analyze_fields_three_decimals sample_lib "a.flac"). by vm_compute.
Defined.

(** When the library hands back a chroma matrix that does not have twelve
    rows, the correlation with the 12-entry profiles raises inside
    [detect_key] and the analysis of the file is a failure. *)
Theorem analyze_fails_on_malformed_chroma (L : Librosa) (file_path : string)
    (y : list fnum) (sr : Z) (chroma : chroma_matrix) :
  load L file_path = Ok (y, sr) →
  chroma_cqt L y sr = Ok chroma →
  length chroma ≠ 12%nat →
  ∃ error, AnalyzeAudio.analyze L file_path = Ok (Failure error).
Proof.
  intros Hload Hchroma Hrows. rewrite analyze_eq.
  destruct (analysis L file_path) as [f|error] eqn:Hres; [|by eexists].
  exfalso.
  destruct (analyze_success_inv L file_path f) as [r _];
    [by rewrite analyze_eq, Hres|].
  pose proof (run_load _ _ r) as H1. rewrite Hload in H1.
  injection H1 as Hy Hsr.
  pose proof (run_chroma_cqt _ _ r) as H2. rewrite <- Hy, <- Hsr in H2.
  rewrite Hchroma in H2. injection H2 as Hc.
  pose proof (run_chroma_rows _ _ r) as H3. rewrite <- Hc in H3. done.
Qed.

Lemma analyze_fails_on_malformed_chroma_witness :
  ∃ error, AnalyzeAudio.analyze short_chroma_lib "a.flac" = Ok (Failure error).
Proof.
  apply (analyze_fails_on_malformed_chroma short_chroma_lib "a.flac"
           [Fin (dec 1 10); Fin (dec (-1) 10)] 22050 (replicate 11 [of_Z 1])).
  - reflexivity.
  - reflexivity.
  - simpl. lia.
Defined.
